(** * Survey explorer: filter state, query builder and crosstab engine

    A shallow embedding of [js/app.js].  JavaScript strings are [string],
    plain objects used as maps ([chartFilters], [filterConfig]) are
    association lists in property-insertion order, [Map]s are association
    lists in key-insertion order, and the record counts returned by the
    analytical engine are integers (a [Number] holds them exactly, they are
    bounded by the size of the survey).  The heatmap shading is computed on
    binary64 floats, and the text of a WHERE clause is read back with a
    reader of the SQL it is written in.  The asynchronous [updateCrosstab]
    is split at its two [await]s. *)

From Stdlib Require Import String Ascii List Bool ZArith Lia Arith.
From Stdlib Require Import QArith Permutation Sorted.
From Stdlib Require Floats.
Import ListNotations.
Close Scope Q_scope.
Open Scope string_scope.

(** ** JavaScript strings *)

Module JsString.

(** [s.replace(/c/g, rep)] for a one-character pattern [c] and a
    replacement without [$] patterns. *)
Fixpoint replaceAll (c : ascii) (rep : string) (s : string) : string :=
  match s with
  | EmptyString => EmptyString
  | String a s' =>
      (if Ascii.eqb a c then rep else String a EmptyString) ++ replaceAll c rep s'
  end.

(** [parts.join(sep)] *)
Fixpoint join (sep : string) (parts : list string) : string :=
  match parts with
  | [] => ""
  | [x] => x
  | x :: rest => x ++ sep ++ join sep rest
  end.

(** A string is truthy unless it is empty. *)
Definition truthy (s : string) : bool := negb (s =? "").

(** Does the character occur in the string? *)
Fixpoint occurs (c : ascii) (s : string) : bool :=
  match s with
  | EmptyString => false
  | String a s' => Ascii.eqb a c || occurs c s'
  end.

(** Number of occurrences of a character. *)
Fixpoint countChar (c : ascii) (s : string) : nat :=
  match s with
  | EmptyString => 0
  | String a s' => (if Ascii.eqb a c then 1 else 0) + countChar c s'
  end.

(** Character-wise substitution, the simultaneous counterpart of a chain
    of [replaceAll]. *)
Fixpoint substChars (f : ascii -> string) (s : string) : string :=
  match s with
  | EmptyString => EmptyString
  | String a s' => f a ++ substChars f s'
  end.

End JsString.


(** ** HTML escaping *)

Module Html.
Import JsString.

(** The argument of [escapeHtml]: [null], [undefined], or any other value,
    carried as the string [String(str)] converts it to. *)
Inductive JsValue :=
| JsNull
| JsUndefined
| JsOther (asString : string).

Definition quot : ascii := "034"%char.
Definition apos : ascii := "039"%char.

Definition escapeHtml (str : JsValue) : string :=
  match str with
  | JsNull | JsUndefined => ""
  | JsOther s =>
      replaceAll apos "&#039;"
        (replaceAll quot "&quot;"
           (replaceAll ">" "&gt;"
              (replaceAll "<" "&lt;"
                 (replaceAll "&" "&amp;" s))))
  end.

(** The entity a single character ends up as. *)
Definition entity (a : ascii) : string :=
  if Ascii.eqb a "&" then "&amp;"
  else if Ascii.eqb a "<" then "&lt;"
  else if Ascii.eqb a ">" then "&gt;"
  else if Ascii.eqb a quot then "&quot;"
  else if Ascii.eqb a apos then "&#039;"
  else String a EmptyString.

End Html.

(** ** Insertion-ordered string-keyed containers

    A JavaScript [Map] with string keys, and a plain object whose keys are
    not integer-like: both enumerate their entries in insertion order, a
    write to an existing key keeps its position. *)

Module Assoc.

Definition t (V : Type) : Type := list (string * V).

Section Operations.
Context {V : Type}.

Fixpoint get (m : t V) (k : string) : option V :=
  match m with
  | [] => None
  | (k', v) :: m' => if k' =? k then Some v else get m' k
  end.

Fixpoint set (m : t V) (k : string) (v : V) : t V :=
  match m with
  | [] => [(k, v)]
  | (k', v') :: m' => if k' =? k then (k', v) :: m' else (k', v') :: set m' k v
  end.

Definition delete (m : t V) (k : string) : t V :=
  filter (fun kv => negb (fst kv =? k)) m.

Definition fromEntries (l : list (string * V)) : t V :=
  fold_left (fun m kv => set m (fst kv) (snd kv)) l [].

Definition keys (m : t V) : list string := map fst m.
Definition values (m : t V) : list V := map snd m.
End Operations.

End Assoc.

(** ** Filter management *)

Module Filters.
Import JsString.

Definition filterConfig : Assoc.t string :=
  [ ("filter-role", "role");
    ("filter-org-size", "org_size");
    ("filter-industry", "industry");
    ("filter-region", "region");
    ("filter-ai-usage", "ai_usage_frequency") ].

(** Columns of [chartConfig], the charts whose bars can be clicked. *)
Definition chartColumns : list string :=
  [ "role"; "org_size"; "industry"; "ai_usage_frequency"; "storage_environment";
    "architecture_trend"; "team_growth_2026"; "biggest_bottleneck"; "region";
    "modeling_approach"; "modeling_pain_points"; "education_topic" ].

(** Columns known to the crosstab, the keys of [getColumnLabel]. *)
Definition crosstabColumns : list string :=
  [ "role"; "org_size"; "industry"; "region"; "ai_usage_frequency"; "ai_adoption";
    "storage_environment"; "orchestration"; "modeling_approach";
    "modeling_pain_points"; "architecture_trend"; "team_growth_2026";
    "biggest_bottleneck"; "team_focus"; "ai_helps_with"; "education_topic" ].

(** The identifiers the static configuration knows. *)
Definition allowlist : list string :=
  (Assoc.values filterConfig ++ chartColumns ++ crosstabColumns)%list.

Definition allowlisted (column : string) : bool :=
  existsb (String.eqb column) allowlist.

(** The filter state the page holds: the value of each sidebar [<select>]
    (by element id, [""] when nothing is chosen) and the global
    [chartFilters] object. *)
Record FilterState := {
  selectValue : string -> string;
  chartFilters : Assoc.t string
}.

(** [value.replace(/'/g, "''")] *)
Definition escapeQuotes (value : string) : string :=
  replaceAll "'" "''" value.

(** The template [`${column} = '${escapedValue}'`]. *)
Definition equality (column value : string) : string :=
  column ++ " = '" ++ escapeQuotes value ++ "'".

Definition sidebarConditions (fs : FilterState) : list string :=
  flat_map (fun '(selectId, column) =>
              let value := selectValue fs selectId in
              if truthy value then [equality column value] else [])
           filterConfig.

Definition chartConditions (fs : FilterState) : list string :=
  map (fun '(column, value) => equality column value) (chartFilters fs).

Definition getWhereClause (fs : FilterState) : string :=
  let conditions := (sidebarConditions fs ++ chartConditions fs)%list in
  if (0 <? List.length conditions)%nat
  then "WHERE " ++ join " AND " conditions
  else "".

(** The equalities [column = value] the clause stands for, as the
    analytical engine reads them. *)
Definition Condition : Type := string * string.

Definition activeFilters (fs : FilterState) : list Condition :=
  (flat_map (fun '(selectId, column) =>
               let value := selectValue fs selectId in
               if truthy value then [(column, value)] else [])
            filterConfig
   ++ chartFilters fs)%list.

(** Is any sidebar or chart filter active? *)
Definition anyFilterActive (fs : FilterState) : bool :=
  existsb (fun '(selectId, _) => truthy (selectValue fs selectId)) filterConfig
  || negb (Nat.eqb (List.length (chartFilters fs)) 0).

(** The line break and indentation between the clause and its extension
    in the query templates. *)
Definition layout : string := String "010"%char "            ".

(** How [renderBarChart] and [updateCrosstab] extend the clause:
    [`${whereClause} ${whereClause ? 'AND' : 'WHERE'} ${extra}`]. *)
Definition extendWhere (whereClause extra : string) : string :=
  whereClause ++ layout
    ++ (if truthy whereClause then "AND" else "WHERE") ++ " " ++ extra.

(** [addChartFilter], on the [chartFilters] object. *)
Definition addChartFilter (chartFilters : Assoc.t string) (column value : string)
  : Assoc.t string :=
  match Assoc.get chartFilters column with
  | Some current =>
      if current =? value
      then Assoc.delete chartFilters column
      else Assoc.set chartFilters column value
  | None => Assoc.set chartFilters column value
  end.

Definition removeChartFilter (chartFilters : Assoc.t string) (column : string)
  : Assoc.t string :=
  Assoc.delete chartFilters column.

(** The chart-filter loop of [restoreStateFromUrl]: [filters] is the object
    parsed from the [cf] parameter of the page address, its entries in the
    order [Object.entries] gives them (keys that an object treats apart,
    array indices and [__proto__], are left out). *)
Definition restoreChartFilters (chartFilters filters : Assoc.t string)
  : Assoc.t string :=
  fold_left (fun o '(col, val) => Assoc.set o col val) filters chartFilters.

(** The sidebar loop of [restoreStateFromUrl]: [param column] is the value
    the address gives for a column of [filterConfig], [options selectId] the
    values the dropdown offers. *)
Definition restoreSidebar (param : string -> option string)
    (options : string -> list string) (selectValue : string -> string)
  : string -> string :=
  fold_left
    (fun sel '(selectId, column) =>
       match param column with
       | Some value =>
           if truthy value && existsb (String.eqb value) (options selectId)
           then fun id => if id =? selectId then value else sel id
           else sel
       | None => sel
       end)
    filterConfig selectValue.

End Filters.

(** ** The analytical engine

    The queries are kept as what the templates interpolate: the columns,
    which of them are split, and the equalities of the WHERE clause.  The
    engine is an external collaborator; [Engine.reference] is the meaning of
    the queries over a list of survey records. *)

Module Engine.
Import JsString Filters.

(** A survey record: column name to value, [None] for NULL. *)
Definition Row : Type := string -> option string.
Definition Dataset : Type := list Row.

Record DetailRow := { row_val : string; col_val : string; count : Z }.
Record TotalRow := { val : string; total : Z }.

(** The crosstab query, one of four texts by the two flags, always under
    [where_ AND rowCol IS NOT NULL AND colCol IS NOT NULL]. *)
Record DetailQuery := {
  d_rowCol : string;
  d_colCol : string;
  d_rowIsMulti : bool;
  d_colIsMulti : bool;
  d_where : list Condition
}.

(** A marginal-total query, under [where_ AND column IS NOT NULL]. *)
Record TotalsQuery := {
  t_column : string;
  t_isMulti : bool;
  t_where : list Condition
}.

Inductive Query :=
| QDetail (q : DetailQuery)
| QTotals (q : TotalsQuery).

(** What [await conn.query(...)] gives: the rows of [result.toArray()], or
    the rejection caught by the [catch] block. *)
Inductive Result (A : Type) :=
| Rows (rows : list A)
| Failure (message : string).
Arguments Rows {A} rows.
Arguments Failure {A} message.

Record t := {
  runDetail : DetailQuery -> Result DetailRow;
  runTotals : TotalsQuery -> Result TotalRow
}.

(** A stable sort by a three-way comparison: [Array.prototype.sort] with a
    consistent comparator, and ORDER BY. *)
Fixpoint insertBy {A} (cmp : A -> A -> comparison) (x : A) (l : list A) : list A :=
  match l with
  | [] => [x]
  | y :: l' =>
      match cmp x y with
      | Gt => y :: insertBy cmp x l'
      | _ => x :: l
      end
  end.

Definition sortBy {A} (cmp : A -> A -> comparison) (l : list A) : list A :=
  fold_right (insertBy cmp) [] l.

(** Adjacent elements are in order: the earlier one is not greater. *)
Definition inOrder {A} (cmp : A -> A -> comparison) (a b : A) : Prop :=
  cmp a b <> Gt.

(** [string_split(s, ',')] *)
Fixpoint string_split (sep : ascii) (s : string) : list string :=
  match s with
  | EmptyString => [""]
  | String a s' =>
      if Ascii.eqb a sep then "" :: string_split sep s'
      else match string_split sep s' with
           | [] => [String a ""]
           | piece :: pieces => String a piece :: pieces
           end
  end.

Fixpoint ltrim (s : string) : string :=
  match s with
  | String a s' => if Ascii.eqb a " " then ltrim s' else s
  | EmptyString => EmptyString
  end.

Fixpoint rtrim (s : string) : string :=
  match s with
  | EmptyString => EmptyString
  | String a s' =>
      let rest := rtrim s' in
      if Ascii.eqb a " " && (rest =? "") then "" else String a rest
  end.

(** [trim(s)]: spaces removed on both sides. *)
Definition trim (s : string) : string := rtrim (ltrim s).

(** [trim(item.value)] over [unnest(string_split(column, ','))]. *)
Definition unnestTrim (v : string) : list string :=
  map trim (string_split "," v).

(** The string a quoted literal with this body denotes: two quotes in a
    row stand for one, a lone quote would end the literal. *)
Fixpoint literalValue (body : string) : option string :=
  match body with
  | EmptyString => Some EmptyString
  | String a rest =>
      if Ascii.eqb a "'"
      then match rest with
           | String b rest' =>
               if Ascii.eqb b "'"
               then option_map (String "'") (literalValue rest')
               else None
           | EmptyString => None
           end
      else option_map (String a) (literalValue rest)
  end.

(** [column = 'value'] on a record; NULL satisfies no equality. *)
Definition holds (r : Row) (c : Condition) : bool :=
  match r (fst c) with
  | Some v => v =? snd c
  | None => false
  end.

Definition selected (where_ : list Condition) (r : Row) : bool :=
  forallb (holds r) where_.

Definition pair_dec (x y : string * string) : {x = y} + {x <> y}.
Proof. decide equality; apply string_dec. Defined.

(** The (row, column) groups one record falls in. *)
Definition detailPairs (q : DetailQuery) (r : Row) : list (string * string) :=
  match r (d_rowCol q), r (d_colCol q) with
  | Some rv, Some cv =>
      match d_rowIsMulti q, d_colIsMulti q with
      | true, true =>
          flat_map (fun ri => map (fun ci => (ri, ci)) (unnestTrim cv)) (unnestTrim rv)
      | true, false => map (fun ri => (ri, cv)) (unnestTrim rv)
      | false, true => map (fun ci => (rv, ci)) (unnestTrim cv)
      | false, false => [(rv, cv)]
      end
  | _, _ => []
  end.

Definition detailKeys (db : Dataset) (q : DetailQuery) : list (string * string) :=
  flat_map (detailPairs q) (filter (selected (d_where q)) db).

(** ORDER BY row_val, col_val *)
Definition byRowCol (a b : DetailRow) : comparison :=
  match String.compare (row_val a) (row_val b) with
  | Eq => String.compare (col_val a) (col_val b)
  | c => c
  end.

Definition referenceDetail (db : Dataset) (q : DetailQuery) : list DetailRow :=
  let keys := detailKeys db q in
  sortBy byRowCol
    (map (fun k => {| row_val := fst k; col_val := snd k;
                      count := Z.of_nat (count_occ pair_dec keys k) |})
         (nodup pair_dec keys)).

(** The groups one record falls in for a marginal total. *)
Definition totalsTokens (q : TotalsQuery) (r : Row) : list string :=
  match r (t_column q) with
  | Some v => if t_isMulti q then unnestTrim v else [v]
  | None => []
  end.

Definition totalsKeys (db : Dataset) (q : TotalsQuery) : list string :=
  flat_map (totalsTokens q) (filter (selected (t_where q)) db).

(** ORDER BY total DESC *)
Definition byTotalDesc (a b : TotalRow) : comparison :=
  Z.compare (total b) (total a).

Definition referenceTotals (db : Dataset) (q : TotalsQuery) : list TotalRow :=
  let keys := totalsKeys db q in
  sortBy byTotalDesc
    (map (fun k => {| val := k; total := Z.of_nat (count_occ string_dec keys k) |})
         (nodup string_dec keys)).

Definition reference (db : Dataset) : t :=
  {| runDetail := fun q => Rows (referenceDetail db q);
     runTotals := fun q => Rows (referenceTotals db q) |}.

End Engine.

(** ** The clause as the engine reads it

    The part of the engine's SQL that the filter clauses are written in:
    blanks, line comments, words (keywords and column names), quoted
    literals, [=] and parentheses, and over them WHERE followed by
    conditions with AND or OR between them, a condition being
    [column = 'literal'], [column ILIKE 'literal'], [column IS [NOT] NULL]
    or a parenthesised group of such conditions.  Any other character or
    order of tokens is refused. *)

Module Sql.
Import Filters.

Inductive Token :=
| Word (w : string)
| Literal (value : string)
| Equals
| OpenParen
| CloseParen.

Definition between (lo hi : N) (a : ascii) : bool :=
  (lo <=? N_of_ascii a)%N && (N_of_ascii a <=? hi)%N.

(** Space, tab, line feed, carriage return. *)
Definition isBlank (a : ascii) : bool :=
  Ascii.eqb a " " || Ascii.eqb a "009" || Ascii.eqb a "010" || Ascii.eqb a "013".

Definition isLetter (a : ascii) : bool :=
  between 97 122 a || between 65 90 a || Ascii.eqb a "_".

Definition isWordChar (a : ascii) : bool := isLetter a || between 48 57 a.

Fixpoint allWordChars (s : string) : bool :=
  match s with
  | EmptyString => true
  | String a s' => isWordChar a && allWordChars s'
  end.

(** A letter or underscore, then letters, digits and underscores. *)
Definition isWord (s : string) : bool :=
  match s with
  | EmptyString => false
  | String a s' => isLetter a && allWordChars s'
  end.

Definition upcase (a : ascii) : ascii :=
  if between 97 122 a then ascii_of_N (N_of_ascii a - 32) else a.

Fixpoint uppercase (s : string) : string :=
  match s with
  | EmptyString => EmptyString
  | String a s' => String (upcase a) (uppercase s')
  end.

(** Keywords are read in either case. *)
Definition keyword (kw w : string) : bool := uppercase w =? kw.

(** The words that cannot name a column. *)
Definition reservedWords : list string :=
  [ "ALL"; "ANALYSE"; "ANALYZE"; "AND"; "ANTI"; "ANY"; "ARRAY"; "AS"; "ASC";
    "ASOF"; "ASYMMETRIC"; "AUTHORIZATION"; "BINARY"; "BOTH"; "CASE"; "CAST";
    "CHECK"; "COLLATE"; "COLLATION"; "COLUMN"; "CONCURRENTLY"; "CONSTRAINT";
    "CREATE"; "CROSS"; "DEFAULT"; "DEFERRABLE"; "DESC"; "DESCRIBE"; "DISTINCT";
    "DO"; "ELSE"; "END"; "EXCEPT"; "FALSE"; "FETCH"; "FOR"; "FOREIGN";
    "FREEZE"; "FROM"; "FULL"; "GLOB"; "GROUP"; "HAVING"; "ILIKE"; "IN";
    "INITIALLY"; "INNER"; "INTERSECT"; "INTO"; "IS"; "ISNULL"; "JOIN";
    "LAMBDA"; "LATERAL"; "LEADING"; "LEFT"; "LIKE"; "LIMIT"; "NATURAL"; "NOT";
    "NOTNULL"; "NULL"; "OFFSET"; "ON"; "ONLY"; "OR"; "ORDER"; "OUTER";
    "OVERLAPS"; "PIVOT"; "PIVOT_LONGER"; "PIVOT_WIDER"; "PLACING";
    "POSITIONAL"; "PRIMARY"; "QUALIFY"; "REFERENCES"; "RETURNING"; "RIGHT";
    "SELECT"; "SEMI"; "SHOW"; "SIMILAR"; "SOME"; "SUMMARIZE"; "SYMMETRIC";
    "TABLE"; "TABLESAMPLE"; "THEN"; "TO"; "TRAILING"; "TRUE"; "TRY_CAST";
    "UNION"; "UNIQUE"; "UNPIVOT"; "USING"; "VARIADIC"; "VERBOSE"; "WHEN";
    "WHERE"; "WINDOW"; "WITH" ].

Definition isReserved (w : string) : bool :=
  existsb (String.eqb (uppercase w)) reservedWords.

(** A word that can stand for a column. *)
Definition isColumnName (s : string) : bool := isWord s && negb (isReserved s).

(** *** Tokens *)

(** Where the reader is in the text. *)
Inductive Mode :=
| Between
| InWord (w : string)
| InLiteral (body : string)
| QuoteSeen (body : string)
| DashSeen
| InComment.

(** A character met between tokens. *)
Definition fresh (a : ascii) : option (list Token * Mode) :=
  if isBlank a then Some ([], Between)
  else if isLetter a then Some ([], InWord (String a ""))
  else if Ascii.eqb a "'" then Some ([], InLiteral "")
  else if Ascii.eqb a "=" then Some ([Equals], Between)
  else if Ascii.eqb a "(" then Some ([OpenParen], Between)
  else if Ascii.eqb a ")" then Some ([CloseParen], Between)
  else if Ascii.eqb a "-" then Some ([], DashSeen)
  else None.

(** The tokens completed by a character, and the mode after it.  Inside a
    literal two quotes in a row stand for one and a single quote ends the
    literal; two dashes start a comment that runs to the end of the
    line. *)
Definition step (m : Mode) (a : ascii) : option (list Token * Mode) :=
  match m with
  | Between => fresh a
  | InWord w =>
      if isWordChar a then Some ([], InWord (w ++ String a ""))
      else option_map (fun '(out, m') => (Word w :: out, m')) (fresh a)
  | InLiteral body =>
      if Ascii.eqb a "'" then Some ([], QuoteSeen body)
      else Some ([], InLiteral (body ++ String a ""))
  | QuoteSeen body =>
      if Ascii.eqb a "'" then Some ([], InLiteral (body ++ "'"))
      else option_map (fun '(out, m') => (Literal body :: out, m')) (fresh a)
  | DashSeen => if Ascii.eqb a "-" then Some ([], InComment) else None
  | InComment =>
      if Ascii.eqb a "010" || Ascii.eqb a "013" then Some ([], Between)
      else Some ([], InComment)
  end.

(** The end of the text: a literal must be closed. *)
Definition finish (m : Mode) : option (list Token) :=
  match m with
  | Between | InComment => Some []
  | InWord w => Some [Word w]
  | QuoteSeen body => Some [Literal body]
  | InLiteral _ | DashSeen => None
  end.

Fixpoint lex (m : Mode) (s : string) : option (list Token) :=
  match s with
  | EmptyString => finish m
  | String a s' =>
      match step m a with
      | Some (out, m') => option_map (app out) (lex m' s')
      | None => None
      end
  end.

Definition tokens (s : string) : option (list Token) := lex Between s.

(** Blanks only. *)
Fixpoint allBlank (w : string) : bool :=
  match w with
  | EmptyString => true
  | String a w' => isBlank a && allBlank w'
  end.

(** The text is at its end or goes on with a blank. *)
Definition startsBlank (s : string) : bool :=
  match s with
  | EmptyString => true
  | String a _ => isBlank a
  end.

(** *** Clauses *)

(** What may come next. *)
Inductive Expect :=
| ExpWhere
| ExpCondition (inGroup : bool)
| ExpOperator (inGroup : bool)
| ExpLiteral (inGroup : bool)
| ExpNotOrNull (inGroup : bool)
| ExpNull (inGroup : bool)
| ExpConnective (inGroup : bool).

Definition next (e : Expect) (t : Token) : option Expect :=
  match e, t with
  | ExpWhere, Word w => if keyword "WHERE" w then Some (ExpCondition false) else None
  | ExpCondition inGroup, Word w =>
      if isReserved w then None else Some (ExpOperator inGroup)
  | ExpCondition false, OpenParen => Some (ExpCondition true)
  | ExpOperator inGroup, Equals => Some (ExpLiteral inGroup)
  | ExpOperator inGroup, Word w =>
      if keyword "ILIKE" w then Some (ExpLiteral inGroup)
      else if keyword "IS" w then Some (ExpNotOrNull inGroup)
      else None
  | ExpLiteral inGroup, Literal _ => Some (ExpConnective inGroup)
  | ExpNotOrNull inGroup, Word w =>
      if keyword "NOT" w then Some (ExpNull inGroup)
      else if keyword "NULL" w then Some (ExpConnective inGroup)
      else None
  | ExpNull inGroup, Word w =>
      if keyword "NULL" w then Some (ExpConnective inGroup) else None
  | ExpConnective inGroup, Word w =>
      if keyword "AND" w || keyword "OR" w then Some (ExpCondition inGroup) else None
  | ExpConnective true, CloseParen => Some (ExpConnective false)
  | _, _ => None
  end.

Fixpoint advance (e : Expect) (ts : list Token) : option Expect :=
  match ts with
  | [] => Some e
  | t :: ts' =>
      match next e t with
      | Some e' => advance e' ts'
      | None => None
      end
  end.

(** The tokens are one or more conditions joined by AND or OR. *)
Definition conditionsOk (ts : list Token) : bool :=
  match advance (ExpCondition false) ts with
  | Some (ExpConnective false) => true
  | _ => false
  end.

(** The tokens are WHERE and one or more conditions. *)
Definition clauseOk (ts : list Token) : bool :=
  match advance ExpWhere ts with
  | Some (ExpConnective false) => true
  | _ => false
  end.

(** The text is a WHERE clause. *)
Definition validWhere (s : string) : bool :=
  match tokens s with
  | Some ts => clauseOk ts
  | None => false
  end.

(** The text is what may follow WHERE or AND. *)
Definition validConditions (s : string) : bool :=
  match tokens s with
  | Some ts => conditionsOk ts
  | None => false
  end.

(** *** The clause of a list of equalities *)

Definition conditionTokens (c : Condition) : list Token :=
  [Word (fst c); Equals; Literal (snd c)].

(** The conditions, AND between them. *)
Fixpoint conjunction (cs : list Condition) : list Token :=
  match cs with
  | [] => []
  | [c] => conditionTokens c
  | c :: cs' => (conditionTokens c ++ Word "AND" :: conjunction cs')%list
  end.

Definition clauseTokens (cs : list Condition) : list Token :=
  match cs with
  | [] => []
  | _ => Word "WHERE" :: conjunction cs
  end.

End Sql.

(** ** Crosstab *)

Module Crosstab.
Import JsString Filters Engine.

Definition MULTI_SELECT_COLUMNS : list string :=
  [ "modeling_pain_points"; "team_focus"; "ai_helps_with" ].

Definition isMultiSelect (column : string) : bool :=
  existsb (String.eqb column) MULTI_SELECT_COLUMNS.

Inductive SortDir := Asc | Desc.

(** The object stored in [crosstabData]. *)
Record CrosstabData := {
  rows : list string;
  cols : list string;
  matrix : Assoc.t Z;
  rowTotals : Assoc.t Z;
  colTotals : Assoc.t Z;
  grandTotal : Z;
  rowCol : string;
  colCol : string;
  metric : string
}.

(** The key [`${row}|||${col}`] of a cell in [matrix]. *)
Definition cellKey (row col : string) : string := row ++ "|||" ++ col.

(** [matrix.get(`${row}|||${col}`) || 0] *)
Definition cellCount (matrix : Assoc.t Z) (row col : string) : Z :=
  match Assoc.get matrix (cellKey row col) with
  | Some n => n
  | None => 0
  end.

(** One element of [rowData].  Metric values are exact rationals here; the
    totals are those of [rowTotals], whose keys the rows are. *)
Record RowData := {
  rd_row : string;
  rd_values : Assoc.t Q;
  rd_total : Z
}.

Definition totalOf (totals : Assoc.t Z) (key : string) : Z :=
  match Assoc.get totals key with
  | Some n => n
  | None => 0
  end.

Definition percent (n d : Z) : Q :=
  if (0 <? d)%Z then (inject_Z n / inject_Z d * 100)%Q else 0%Q.

Definition cellValue (cd : CrosstabData) (row col : string) : Q :=
  let n := cellCount (matrix cd) row col in
  if metric cd =? "row_pct" then percent n (totalOf (rowTotals cd) row)
  else if metric cd =? "col_pct" then percent n (totalOf (colTotals cd) col)
  else inject_Z n.

Definition rowDataOf (cd : CrosstabData) (row : string) : RowData :=
  {| rd_row := row;
     rd_values :=
       fold_left (fun values col => Assoc.set values col (cellValue cd row col))
                 (cols cd) [];
     rd_total := totalOf (rowTotals cd) row |}.

(** [a.values[key] || 0] *)
Definition valueAt (rd : RowData) (key : string) : Q :=
  match Assoc.get (rd_values rd) key with
  | Some v => v
  | None => 0%Q
  end.

(** The quantity the comparator of [rowData.sort] reads off a row; a
    [null] sort column indexes [values] by the string ["null"]. *)
Definition sortValue (sortCol : option string) (rd : RowData) : Q :=
  match sortCol with
  | Some col => if col =? "_total" then inject_Z (rd_total rd) else valueAt rd col
  | None => valueAt rd "null"
  end.

(** The sign of [bVal - aVal] (descending) or [aVal - bVal] (ascending). *)
Definition rowOrder (sortCol : option string) (dir : SortDir) (a b : RowData)
  : comparison :=
  match dir with
  | Desc => Qcompare (sortValue sortCol b) (sortValue sortCol a)
  | Asc => Qcompare (sortValue sortCol a) (sortValue sortCol b)
  end.

(** The table written by [renderCrosstabTable]: column headers, sorted body
    rows, the totals row and the sort marker.  Cell colours are left out. *)
Record Table := {
  tbl_cols : list string;
  tbl_body : list RowData;
  tbl_colTotals : list (option Z);
  tbl_grandTotal : Z;
  tbl_sortCol : option string;
  tbl_sortDir : SortDir
}.

(** What [#crosstab-results] shows. *)
Inductive Container :=
| Untouched
| SelectDifferentDimensions
| NoDataMatches
| ErrorText (message : string)
| Rendered (table : Table).

(** The page state [updateCrosstab] and the sort handler read and write. *)
Record Page := {
  rowsSelect : string;
  colsSelect : string;
  metricSelect : string;
  filterState : FilterState;
  crosstabData : option CrosstabData;
  crosstabSortCol : option string;
  crosstabSortDir : SortDir;
  results : Container
}.

Definition withResults (c : Container) (p : Page) : Page :=
  {| rowsSelect := rowsSelect p; colsSelect := colsSelect p;
     metricSelect := metricSelect p; filterState := filterState p;
     crosstabData := crosstabData p; crosstabSortCol := crosstabSortCol p;
     crosstabSortDir := crosstabSortDir p; results := c |}.

Definition withSort (col : option string) (dir : SortDir) (p : Page) : Page :=
  {| rowsSelect := rowsSelect p; colsSelect := colsSelect p;
     metricSelect := metricSelect p; filterState := filterState p;
     crosstabData := crosstabData p; crosstabSortCol := col;
     crosstabSortDir := dir; results := results p |}.

Definition withData (cd : CrosstabData) (p : Page) : Page :=
  {| rowsSelect := rowsSelect p; colsSelect := colsSelect p;
     metricSelect := metricSelect p; filterState := filterState p;
     crosstabData := Some cd; crosstabSortCol := crosstabSortCol p;
     crosstabSortDir := crosstabSortDir p; results := results p |}.

Definition renderTable (cd : CrosstabData) (sortCol : option string)
    (dir : SortDir) : Table :=
  {| tbl_cols := cols cd;
     tbl_body := sortBy (rowOrder sortCol dir) (map (rowDataOf cd) (rows cd));
     tbl_colTotals := map (Assoc.get (colTotals cd)) (cols cd);
     tbl_grandTotal := grandTotal cd;
     tbl_sortCol := sortCol;
     tbl_sortDir := dir |}.

Definition renderCrosstabTable (p : Page) : Page :=
  match crosstabData p with
  | None => p
  | Some cd =>
      withResults (Rendered (renderTable cd (crosstabSortCol p) (crosstabSortDir p))) p
  end.

(** The click handler of a [.crosstab-sortable] header whose
    [data-sort-col] decodes to [col]. *)
Definition sortClicked (col : string) (p : Page) : Page :=
  let p' :=
    match crosstabSortCol p with
    | Some current =>
        if current =? col
        then withSort (crosstabSortCol p)
                      (match crosstabSortDir p with Desc => Asc | Asc => Desc end) p
        else withSort (Some col) Desc p
    | None => withSort (Some col) Desc p
    end in
  renderCrosstabTable p'.

(** *** [updateCrosstab], cut at its awaits *)

(** The constants an invocation holds across its awaits. *)
Record Invocation := {
  i_rowCol : string;
  i_colCol : string;
  i_metric : string;
  i_where : list Condition
}.

Definition detailQuery (i : Invocation) : DetailQuery :=
  {| d_rowCol := i_rowCol i; d_colCol := i_colCol i;
     d_rowIsMulti := isMultiSelect (i_rowCol i);
     d_colIsMulti := isMultiSelect (i_colCol i);
     d_where := i_where i |}.

Definition rowTotalsQuery (i : Invocation) : TotalsQuery :=
  {| t_column := i_rowCol i; t_isMulti := isMultiSelect (i_rowCol i);
     t_where := i_where i |}.

Definition colTotalsQuery (i : Invocation) : TotalsQuery :=
  {| t_column := i_colCol i; t_isMulti := isMultiSelect (i_colCol i);
     t_where := i_where i |}.

(** Where an invocation stands after a synchronous stretch. *)
Inductive Progress :=
| Finished
| AwaitDetail (i : Invocation)
| AwaitTotals (i : Invocation) (data : list DetailRow).

Definition invocationOf (p : Page) : Invocation :=
  {| i_rowCol := rowsSelect p; i_colCol := colsSelect p;
     i_metric := metricSelect p;
     i_where := activeFilters (filterState p) |}.

(** From the call to the first await. *)
Definition start (p : Page) : Page * Progress :=
  let rowCol := rowsSelect p in
  let colCol := colsSelect p in
  if rowCol =? colCol
  then (withResults SelectDifferentDimensions p, Finished)
  else (p, AwaitDetail (invocationOf p)).

(** From the crosstab query's answer to the second await. *)
Definition onDetail (i : Invocation) (answer : Result DetailRow) (p : Page)
  : Page * Progress :=
  match answer with
  | Failure message => (withResults (ErrorText message) p, Finished)
  | Rows data =>
      if Nat.eqb (List.length data) 0
      then (withResults NoDataMatches p, Finished)
      else (p, AwaitTotals i data)
  end.

(** The key a row of the crosstab query is stored under. *)
Definition keyOf (d : DetailRow) : string := cellKey (row_val d) (col_val d).

(** The loop that fills [matrix]. *)
Definition fill (data : list DetailRow) (m : Assoc.t Z) : Assoc.t Z :=
  fold_left (fun m d => Assoc.set m (keyOf d) (count d)) data m.

(** The object assembled once both marginal totals are in. *)
Definition assemble (i : Invocation) (data : list DetailRow)
    (rowTotalsResult colTotalsResult : list TotalRow) : CrosstabData :=
  let rowTotals := Assoc.fromEntries (map (fun r => (val r, total r)) rowTotalsResult) in
  let colTotals := Assoc.fromEntries (map (fun r => (val r, total r)) colTotalsResult) in
  let rows := Assoc.keys rowTotals in
  let cols := Assoc.keys colTotals in
  let matrix := fill data [] in
  let grandTotal := fold_left Z.add (Assoc.values rowTotals) 0%Z in
  {| rows := rows; cols := cols; matrix := matrix;
     rowTotals := rowTotals; colTotals := colTotals; grandTotal := grandTotal;
     rowCol := i_rowCol i; colCol := i_colCol i; metric := i_metric i |}.

(** From the answer of [Promise.all] to the end.  When both totals queries
    fail, [Promise.all] rejects with the failure that comes first; the two
    answers are taken here in the order of the queries, and the statements
    on failures name the message of a failed query without saying which. *)
Definition onTotals (i : Invocation) (data : list DetailRow)
    (rowAnswer colAnswer : Result TotalRow) (p : Page) : Page :=
  match rowAnswer, colAnswer with
  | Rows rowTotalsResult, Rows colTotalsResult =>
      let cd := assemble i data rowTotalsResult colTotalsResult in
      renderCrosstabTable (withSort (Some "_total") Desc (withData cd p))
  | Failure message, _ => withResults (ErrorText message) p
  | _, Failure message => withResults (ErrorText message) p
  end.

(** [updateCrosstab] run to its end against an engine that answers at
    once, with the queries it sent. *)
Definition updateCrosstab (engine : Engine.t) (p : Page) : Page * list Query :=
  match start p with
  | (p1, AwaitDetail i) =>
      let q := detailQuery i in
      match onDetail i (runDetail engine q) p1 with
      | (p2, AwaitTotals i' data) =>
          let qr := rowTotalsQuery i' in
          let qc := colTotalsQuery i' in
          (onTotals i' data (runTotals engine qr) (runTotals engine qc) p2,
           [QDetail q; QTotals qr; QTotals qc])
      | (p2, _) => (p2, [QDetail q])
      end
  | (p1, _) => (p1, [])
  end.

(** The matrix an invocation assembles from the answers of the reference
    engine over the records [db]. *)
Definition assembleOver (db : Dataset) (i : Invocation) : CrosstabData :=
  assemble i (referenceDetail db (detailQuery i))
           (referenceTotals db (rowTotalsQuery i))
           (referenceTotals db (colTotalsQuery i)).

(** *** Sums over the assembled matrix *)

Definition sumZ (l : list Z) : Z := fold_right Z.add 0%Z l.

(** The cell counts of a row, summed over the columns of the table. *)
Definition rowSum (cd : CrosstabData) (row : string) : Z :=
  sumZ (map (fun col => cellCount (matrix cd) row col) (cols cd)).

(** The cell counts of a column, summed over the rows of the table. *)
Definition colSum (cd : CrosstabData) (col : string) : Z :=
  sumZ (map (fun row => cellCount (matrix cd) row col) (rows cd)).

End Crosstab.

(** ** Overlapping invocations

    [updateCrosstab] is called by listeners and by [onFilterChange] without
    waiting for an earlier call to end.  A world holds the page and the
    invocations suspended at an await.  The number of calls made so far, the
    queries sent and the invocation that wrote [#crosstab-results] last are
    kept for the statements only: the program has no such counters. *)

Module EventLoop.
Import Filters Engine Crosstab.

Record World := {
  page : Page;
  inflight : list (nat * Progress);
  sent : list (nat * Query);
  calls : nat;
  lastWriter : option nat
}.

Inductive Event :=
| RowsChanged (value : string)
| ColsChanged (value : string)
| MetricChanged (value : string)
| FiltersSet (fs : FilterState)
| Called
| DetailAnswered (id : nat) (answer : Result DetailRow)
| TotalsAnswered (id : nat) (rowAnswer colAnswer : Result TotalRow)
| HeaderClicked (col : string).

Definition withSelects (rowsValue colsValue metricValue : string)
    (fs : FilterState) (p : Page) : Page :=
  {| rowsSelect := rowsValue; colsSelect := colsValue;
     metricSelect := metricValue; filterState := fs;
     crosstabData := crosstabData p; crosstabSortCol := crosstabSortCol p;
     crosstabSortDir := crosstabSortDir p; results := results p |}.

Fixpoint pending (id : nat) (l : list (nat * Progress)) : option Progress :=
  match l with
  | [] => None
  | (id', progress) :: l' => if Nat.eqb id' id then Some progress else pending id l'
  end.

Definition settle (id : nat) (l : list (nat * Progress)) : list (nat * Progress) :=
  filter (fun e => negb (Nat.eqb (fst e) id)) l.

(** A call of [updateCrosstab] on the page [p], up to its first await. *)
Definition call (p : Page) (w : World) : World :=
  let id := calls w in
  match start p with
  | (p', AwaitDetail i) =>
      {| page := p';
         inflight := inflight w ++ [(id, AwaitDetail i)];
         sent := sent w ++ [(id, QDetail (detailQuery i))];
         calls := S id;
         lastWriter := lastWriter w |}
  | (p', _) =>
      {| page := p'; inflight := inflight w; sent := sent w;
         calls := S id; lastWriter := Some id |}
  end.

Definition step (w : World) (e : Event) : World :=
  let p := page w in
  match e with
  | RowsChanged value =>
      call (withSelects value (colsSelect p) (metricSelect p) (filterState p) p) w
  | ColsChanged value =>
      call (withSelects (rowsSelect p) value (metricSelect p) (filterState p) p) w
  | MetricChanged value =>
      call (withSelects (rowsSelect p) (colsSelect p) value (filterState p) p) w
  | FiltersSet fs =>
      {| page := withSelects (rowsSelect p) (colsSelect p) (metricSelect p) fs p;
         inflight := inflight w; sent := sent w; calls := calls w;
         lastWriter := lastWriter w |}
  | Called => call p w
  | DetailAnswered id answer =>
      match pending id (inflight w) with
      | Some (AwaitDetail i) =>
          match onDetail i answer p with
          | (p', AwaitTotals i' data) =>
              {| page := p';
                 inflight := settle id (inflight w) ++ [(id, AwaitTotals i' data)];
                 sent := sent w ++ [(id, QTotals (rowTotalsQuery i'));
                                    (id, QTotals (colTotalsQuery i'))];
                 calls := calls w;
                 lastWriter := lastWriter w |}
          | (p', _) =>
              {| page := p'; inflight := settle id (inflight w); sent := sent w;
                 calls := calls w; lastWriter := Some id |}
          end
      | _ => w
      end
  | TotalsAnswered id rowAnswer colAnswer =>
      match pending id (inflight w) with
      | Some (AwaitTotals i data) =>
          {| page := onTotals i data rowAnswer colAnswer p;
             inflight := settle id (inflight w); sent := sent w;
             calls := calls w; lastWriter := Some id |}
      | _ => w
      end
  | HeaderClicked col =>
      match results p with
      | Rendered _ =>
          {| page := sortClicked col p; inflight := inflight w; sent := sent w;
             calls := calls w; lastWriter := lastWriter w |}
      | _ => w
      end
  end.

(** The invocation an event is an answer to, if any. *)
Definition answered (e : Event) : option nat :=
  match e with
  | DetailAnswered id _ => Some id
  | TotalsAnswered id _ _ => Some id
  | _ => None
  end.

Definition run (w : World) (events : list Event) : World :=
  fold_left step events w.

(** The property a generation counter would give: once nothing is in
    flight, what is shown was written by the latest call. *)
Definition ShowsLatestCall (w : World) : Prop :=
  inflight w = [] -> forall id, lastWriter w = Some id -> S id = calls w.

End EventLoop.

(** ** What the crosstab container shows *)

Module Display.
Import Crosstab.

(** A table in the container is the stored matrix under the stored sort
    state, and a stored matrix comes with a sort column. *)
Definition Consistent (p : Page) : Prop :=
  match results p with
  | Rendered table =>
      exists cd, crosstabData p = Some cd
                 /\ table = renderTable cd (crosstabSortCol p) (crosstabSortDir p)
  | _ => True
  end
  /\ (crosstabData p <> None -> crosstabSortCol p <> None).

(** The order a direction asks for, on the totals of two rows. *)
Definition totalsInOrder (dir : SortDir) (a b : RowData) : Prop :=
  match dir with
  | Desc => (rd_total b <= rd_total a)%Z
  | Asc => (rd_total a <= rd_total b)%Z
  end.

(** Strictly descending and strictly ascending by a key. *)
Definition above {X : Type} (key : X -> Z) (a b : X) : Prop := (key b < key a)%Z.
Definition below {X : Type} (key : X -> Z) (a b : X) : Prop := (key a < key b)%Z.

End Display.

(** ** Heatmap shading

    The shading is computed on [Number]s: binary64 floats, with the
    rounding of every operation.  The decimal constants stand for the
    floats nearest to them, as they do in the program. *)

Module Heatmap.
Import PrimFloat.
Local Open Scope float_scope.
#[local] Set Warnings "-inexact-float".












End Heatmap.

(** ** Text truncation *)

Module Text.

(** A string as its UTF-16 code units: what [length] counts and
    [substring] cuts. *)
Definition JsText : Type := list N.

(** The code unit of the horizontal ellipsis. *)
Definition ellipsis : N := 8230%N.

(** [text.substring(0, n)]: a negative [n] counts as 0, one beyond the
    end as the length. *)
Definition substringFrom0 (text : JsText) (n : Z) : JsText :=
  firstn (Z.to_nat n) text.

Definition truncateText (text : JsText) (maxLength : Z) : JsText :=
  if Nat.eqb (List.length text) 0 || (Z.of_nat (List.length text) <=? maxLength)%Z
  then text
  else (substringFrom0 text (maxLength - 1) ++ [ellipsis])%list.

End Text.

(** ** CSV export *)

Module Csv.
Import JsString Html.

Definition comma : ascii := ","%char.
Definition newline : ascii := "010"%char.
Definition carriageReturn : ascii := "013"%char.

(** One cell of a row, in [exportSqlResults] and [exportFilteredCsv]. *)
Definition csvField (val : JsValue) : string :=
  match val with
  | JsNull | JsUndefined => ""
  | JsOther str =>
      if occurs comma str || occurs newline str || occurs quot str
      then String quot (replaceAll quot (String quot (String quot "")) str
                        ++ String quot "")
      else str
  end.

(** [values.join(',')], the line of a row without its line break. *)
Definition csvRecord (row : list JsValue) : string :=
  join "," (map csvField row).

(** The text both exports build: the column names joined by commas, then
    a line for each row, every line ended by a line feed. *)
Definition exportCsv (columns : list string) (rows : list (string -> JsValue))
  : string :=
  fold_left
    (fun csv row => csv ++ csvRecord (map row columns) ++ String newline "")
    rows
    (join "," columns ++ String newline "").

(** The text a cell stands for. *)
Definition cellText (val : JsValue) : string :=
  match val with
  | JsNull | JsUndefined => ""
  | JsOther str => str
  end.

(** A column name that is written as it is and read as it is. *)
Definition plain (name : string) : bool :=
  negb (occurs comma name || occurs newline name || occurs quot name
        || occurs carriageReturn name).

(** A cell with a carriage return that the export leaves unquoted: it has
    no comma, line feed or double quote. *)
Definition bareReturn (val : JsValue) : bool :=
  let str := cellText val in
  occurs carriageReturn str
  && negb (occurs comma str || occurs newline str || occurs quot str).

(** *** A reader of CSV text

    Commas outside quotes separate the fields of a record; a line feed, a
    carriage return or the two in a row end a record outside quotes; a
    field may be enclosed in double quotes, inside which two double quotes
    stand for one and commas and line breaks are text.  An empty last line
    is no record. *)

(** A character put in front of the first field of the first record. *)
Definition addChar (a : ascii) (records : list (list string)) : list (list string) :=
  match records with
  | (field :: fields) :: rest => (String a field :: fields) :: rest
  | [] :: rest => [String a ""] :: rest
  | [] => [[String a ""]]
  end.

(** A string put in front of the first field of the first record. *)
Definition addString (str : string) (records : list (list string))
  : list (list string) :=
  match records with
  | (field :: fields) :: rest => ((str ++ field) :: fields) :: rest
  | [] :: rest => [str] :: rest
  | [] => [[str]]
  end.

Definition newField (records : list (list string)) : list (list string) :=
  match records with
  | record :: rest => ("" :: record) :: rest
  | [] => [[""; ""]]
  end.

Definition newRecord (records : list (list string)) : list (list string) :=
  [""] :: records.

Fixpoint parse (inQuotes : bool) (s : string) : list (list string) :=
  match s with
  | EmptyString => [[""]]
  | String a rest =>
      if inQuotes
      then if Ascii.eqb a quot
           then match rest with
                | String b rest' =>
                    if Ascii.eqb b quot
                    then addChar quot (parse true rest')
                    else parse false rest
                | EmptyString => [[""]]
                end
           else addChar a (parse true rest)
      else if Ascii.eqb a comma then newField (parse false rest)
      else if Ascii.eqb a newline then newRecord (parse false rest)
      else if Ascii.eqb a carriageReturn
           then match rest with
                | String b rest' =>
                    if Ascii.eqb b newline
                    then newRecord (parse false rest')
                    else newRecord (parse false rest)
                | EmptyString => newRecord (parse false rest)
                end
      else if Ascii.eqb a quot then parse true rest
      else addChar a (parse false rest)
  end.

Fixpoint dropEmptyLast (records : list (list string)) : list (list string) :=
  match records with
  | [] => []
  | [record] =>
      match record with
      | [field] => if field =? "" then [] else [record]
      | _ => [record]
      end
  | record :: rest => record :: dropEmptyLast rest
  end.

Definition readCsv (s : string) : list (list string) :=
  dropEmptyLast (parse false s).

End Csv.

(** ** Responses pagination *)

Module Pager.

Definition responsesPerPage : Z := 25.

Record State := {
  responsesPage : Z;
  responsesTotalCount : Z
}.

Definition initial : State :=
  {| responsesPage := 0; responsesTotalCount := 0 |}.

(** The synchronous stretches that touch the two variables: the two
    pagination handlers, the resets to the first page by the search box
    and by [onFilterChange], and the part of [updateResponses] that runs
    when the count query has answered. *)
Inductive Event :=
| PrevClicked
| NextClicked
| FirstPageReset
| CountAnswered (count : Z).

Definition step (st : State) (e : Event) : State :=
  match e with
  | PrevClicked =>
      if (0 <? responsesPage st)%Z
      then {| responsesPage := responsesPage st - 1;
              responsesTotalCount := responsesTotalCount st |}
      else st
  | NextClicked =>
      if ((responsesPage st + 1) * responsesPerPage <? responsesTotalCount st)%Z
      then {| responsesPage := responsesPage st + 1;
              responsesTotalCount := responsesTotalCount st |}
      else st
  | FirstPageReset =>
      {| responsesPage := 0; responsesTotalCount := responsesTotalCount st |}
  | CountAnswered count =>
      {| responsesPage :=
           if (count <=? responsesPage st * responsesPerPage)%Z
           then 0%Z else responsesPage st;
         responsesTotalCount := count |}
  end.

Definition run (st : State) (events : list Event) : State :=
  fold_left step events st.

(** OFFSET of the page query. *)
Definition offset (st : State) : Z := (responsesPage st * responsesPerPage)%Z.

(** The page is the first one or starts before the end of the data. *)
Definition inRange (st : State) : Prop :=
  (0 <= responsesPage st)%Z
  /\ (responsesPage st = 0%Z \/ (offset st < responsesTotalCount st)%Z).

Definition startNum (st : State) : Z :=
  (responsesPage st * responsesPerPage + 1)%Z.

Definition endNum (st : State) : Z :=
  Z.min ((responsesPage st + 1) * responsesPerPage) (responsesTotalCount st).

Definition prevDisabled (st : State) : bool := (responsesPage st =? 0)%Z.

Definition nextDisabled (st : State) : bool :=
  (responsesTotalCount st <=? (responsesPage st + 1) * responsesPerPage)%Z.

End Pager.

(** ** SQL query history *)

Module SqlHistory.

Definition SQL_HISTORY_MAX : nat := 20.

(** An entry of the stored list; [time] and [duration] are the strings of
    [toISOString] and [toFixed]. *)
Record Entry := {
  sql : string;
  time : string;
  duration : string
}.

Section Save.
(** [String.prototype.trim] *)
Variable trim : string -> string.

(** [saveSqlQuery], as the list stored afterwards; [history] is what
    [getSqlHistory] read, [now] the time of the call. *)
Definition saveSqlQuery (history : list Entry) (sql_ now duration_ : string)
  : list Entry :=
  let entry := {| sql := trim sql_; time := now; duration := duration_ |} in
  match history with
  | recent :: _ =>
      if sql recent =? sql_ then history
      else firstn SQL_HISTORY_MAX (entry :: history)
  | [] => firstn SQL_HISTORY_MAX [entry]
  end.

(** What [runQuery] saves for the editor text [text], when the query ran. *)
Definition saveFromEditor (history : list Entry) (text now duration_ : string)
  : list Entry :=
  saveSqlQuery history (trim text) now duration_.
End Save.

End SqlHistory.

(** ** Shareable and stored filter state *)

Module Persist.
Import JsString Filters.

(** The filter part of the search parameters: sidebar values under their
    column names and the chart filters object under [cf]. *)
Record UrlState := {
  params : Assoc.t string;
  cf : option (Assoc.t string)
}.

(** The filter part of [updateUrlState]. *)
Definition updateUrlState (fs : FilterState) : UrlState :=
  {| params :=
       fold_left (fun ps '(selectId, column) =>
                    let value := selectValue fs selectId in
                    if truthy value then Assoc.set ps column value else ps)
                 filterConfig [];
     cf := if Nat.eqb (List.length (Assoc.keys (chartFilters fs))) 0
           then None else Some (chartFilters fs) |}.

(** The filter part of [restoreStateFromUrl]. *)
Definition restoreStateFromUrl (url : UrlState) (options : string -> list string)
    (fs : FilterState) : FilterState :=
  {| selectValue := restoreSidebar (Assoc.get (params url)) options (selectValue fs);
     chartFilters :=
       match cf url with
       | Some filters => restoreChartFilters (chartFilters fs) filters
       | None => chartFilters fs
       end |}.

(** The object written under [surveyFilters]. *)
Record Stored := {
  selects : Assoc.t string;
  _chartFilters : option (Assoc.t string)
}.

Definition saveFiltersToLocalStorage (fs : FilterState) : Stored :=
  {| selects :=
       fold_left (fun state '(selectId, column) =>
                    let value := selectValue fs selectId in
                    if truthy value then Assoc.set state selectId value else state)
                 filterConfig [];
     _chartFilters :=
       if Nat.eqb (List.length (Assoc.keys (chartFilters fs))) 0
       then None else Some (chartFilters fs) |}.

(** [restoreFiltersFromLocalStorage]: [search] is [window.location.search],
    [saved] the stored object if there is one. *)
Definition restoreFiltersFromLocalStorage (search : string) (saved : option Stored)
    (options : string -> list string) (fs : FilterState) : FilterState :=
  if truthy search then fs
  else match saved with
       | None => fs
       | Some state =>
           {| selectValue :=
                fold_left
                  (fun sel '(selectId, column) =>
                     match Assoc.get (selects state) selectId with
                     | Some value =>
                         if truthy value
                            && existsb (String.eqb value) (options selectId)
                         then fun id => if id =? selectId then value else sel id
                         else sel
                     | None => sel
                     end)
                  filterConfig (selectValue fs);
              chartFilters :=
                match _chartFilters state with
                | Some filters => restoreChartFilters (chartFilters fs) filters
                | None => chartFilters fs
                end |}
       end.

(** The loops that write the sidebar values under a key of their
    [filterConfig] entry, and that read them back into the dropdowns that
    offer them. *)
Definition writeLoop (sel : string -> string) (key : string * string -> string)
    (config : Assoc.t string) (acc : Assoc.t string) : Assoc.t string :=
  fold_left (fun ps e =>
               if truthy (sel (fst e)) then Assoc.set ps (key e) (sel (fst e)) else ps)
            config acc.

Definition readLoop (lookup : string -> option string)
    (key : string * string -> string) (options : string -> list string)
    (config : Assoc.t string) (sel : string -> string) : string -> string :=
  fold_left
    (fun sel e =>
       match lookup (key e) with
       | Some value =>
           if truthy value && existsb (String.eqb value) (options (fst e))
           then fun id => if id =? fst e then value else sel id
           else sel
       | None => sel
       end)
    config sel.

(** [clearAllChartFilters], on the object. *)
Definition clearAllChartFilters (chartFilters : Assoc.t string) : Assoc.t string :=
  fold_left (fun o key => Assoc.delete o key) (Assoc.keys chartFilters) chartFilters.

(** [resetFilters] *)
Definition resetFilters (fs : FilterState) : FilterState :=
  {| selectValue :=
       fold_left (fun sel selectId => fun id => if id =? selectId then "" else sel id)
                 (Assoc.keys filterConfig) (selectValue fs);
     chartFilters := clearAllChartFilters (chartFilters fs) |}.

(** No dropdown of [filterConfig] has a value. *)
Definition blank : FilterState :=
  {| selectValue := fun _ => ""; chartFilters := [] |}.

(** The condition [updateResponses] adds for a search term. *)
Definition searchCondition (escapedSearch : string) : string :=
  let nl := String "010"%char "                " in
  "(" ++ nl ++ "education_topic ILIKE '%" ++ escapedSearch ++ "%' "
      ++ nl ++ "OR industry_wish ILIKE '%" ++ escapedSearch ++ "%'"
      ++ nl ++ "OR role ILIKE '%" ++ escapedSearch ++ "%'"
      ++ nl ++ "OR industry ILIKE '%" ++ escapedSearch ++ "%'"
      ++ nl ++ "OR region ILIKE '%" ++ escapedSearch ++ "%'"
      ++ String "010"%char "            " ++ ")".

(** The columns the search condition looks in. *)
Definition searchColumns : list string :=
  [ "education_topic"; "industry_wish"; "role"; "industry"; "region" ].

(** [column ILIKE '%term%'], as the engine reads it. *)
Definition patternTokens (term column : string) : list Sql.Token :=
  [Sql.Word column; Sql.Word "ILIKE"; Sql.Literal ("%" ++ term ++ "%")].

(** The patterns, OR between them. *)
Fixpoint alternatives (term : string) (columns : list string) : list Sql.Token :=
  match columns with
  | [] => []
  | [column] => patternTokens term column
  | column :: columns' =>
      (patternTokens term column ++ Sql.Word "OR" :: alternatives term columns')%list
  end.

(** The search condition for a term, as the engine reads it. *)
Definition searchTokens (term : string) : list Sql.Token :=
  (Sql.OpenParen :: alternatives term searchColumns ++ [Sql.CloseParen])%list.

(** The clause of the count and page queries of [updateResponses]. *)
Definition responsesWhere (fs : FilterState) (responsesSearchTerm : string) : string :=
  let whereClause := getWhereClause fs in
  if truthy responsesSearchTerm
  then let escapedSearch := escapeQuotes responsesSearchTerm in
       if truthy whereClause
       then whereClause ++ " AND " ++ searchCondition escapedSearch
       else "WHERE " ++ searchCondition escapedSearch
  else whereClause.

End Persist.

(** ** Sample data *)

Module Sample.
Import Filters Engine Crosstab EventLoop.

(** A record with a role and a region, NULL elsewhere. *)
Definition record (role region : option string) : Row :=
  fun column =>
    if column =? "role" then role
    else if column =? "region" then region
    else None.

Definition noFilters : FilterState :=
  {| selectValue := fun _ => ""; chartFilters := [] |}.

Definition roleByRegion : Page :=
  {| rowsSelect := "role"; colsSelect := "region"; metricSelect := "count";
     filterState := noFilters; crosstabData := None;
     crosstabSortCol := None; crosstabSortDir := Desc; results := Untouched |}.

(** Every record has both dimensions or neither. *)
Definition complete : Dataset :=
  [ record (Some "Analyst") (Some "Europe");
    record (Some "Engineer") (Some "Europe");
    record (Some "Engineer") (Some "Asia");
    record (Some "Engineer") (Some "Europe");
    record None None ].

(** The second record has a role and no region. *)
Definition partial : Dataset :=
  [ record (Some "Analyst") (Some "Europe");
    record (Some "Analyst") None ].

(** Values that hold the separator of the cell keys. *)
Definition colliding : Dataset :=
  [ record (Some "a|||b") (Some "c");
    record (Some "a") (Some "x");
    record (Some "z") (Some "b|||c") ].

Definition idle : World :=
  {| page := roleByRegion; inflight := []; sent := []; calls := 0;
     lastWriter := None |}.

(** A call for role by region gets its crosstab answer and waits for the
    totals. *)
Definition firstCall : list Event :=
  [ Called;
    DetailAnswered 0 (Rows (referenceDetail complete
                              (detailQuery (invocationOf roleByRegion)))) ].

(** Meanwhile the column is set to role: a second call, which shows the
    placeholder. *)
Definition secondCall : list Event := [ ColsChanged "role" ].

(** Then the totals of the first call arrive. *)
Definition firstTotals : Event :=
  TotalsAnswered 0
    (Rows (referenceTotals complete (rowTotalsQuery (invocationOf roleByRegion))))
    (Rows (referenceTotals complete (colTotalsQuery (invocationOf roleByRegion)))).

Definition overtaken : list Event :=
  (firstCall ++ secondCall ++ [firstTotals])%list.

End Sample.

(** * Properties *)

(** ** Strings *)

Section StringFacts.
Import JsString.

Lemma append_assoc (a b c : string) : (a ++ b) ++ c = a ++ (b ++ c).
Proof. induction a as [|x a IH]; simpl; [reflexivity | now rewrite IH]. Qed.

Lemma append_empty_r (s : string) : s ++ "" = s.
Proof. induction s as [|a s IH]; cbn; [reflexivity | now rewrite IH]. Qed.

Lemma replaceAll_app c rep s t :
  replaceAll c rep (s ++ t) = replaceAll c rep s ++ replaceAll c rep t.
Proof.
  induction s as [|a s IH]; simpl; [reflexivity|].
  now rewrite IH, append_assoc.
Qed.

Lemma occurs_app c s t : occurs c (s ++ t) = occurs c s || occurs c t.
Proof.
  induction s as [|a s IH]; simpl; [reflexivity|].
  now rewrite IH, orb_assoc.
Qed.

Lemma countChar_app c s t : countChar c (s ++ t) = countChar c s + countChar c t.
Proof.
  induction s as [|a s IH]; simpl; [reflexivity|]. rewrite IH. lia.
Qed.

Lemma replaceAll_other c rep a :
  Ascii.eqb a c = false -> replaceAll c rep (String a "") = String a "".
Proof. intros H. simpl. now rewrite H. Qed.

Lemma occurs_substChars c f s :
  (forall a, occurs c (f a) = false) -> occurs c (substChars f s) = false.
Proof.
  intros Hf. induction s as [|a s IH]; simpl; [reflexivity|].
  now rewrite occurs_app, Hf, IH.
Qed.

Lemma join_cons sep x y rest :
  join sep (x :: y :: rest) = x ++ sep ++ join sep (y :: rest).
Proof. reflexivity. Qed.

Lemma join_snoc sep parts x :
  parts <> [] -> join sep (parts ++ [x]) = join sep parts ++ sep ++ x.
Proof.
  induction parts as [|y parts IH]; [congruence|]. intros _.
  destruct parts as [|z parts]; [reflexivity|].
  change ((y :: z :: parts) ++ [x])%list with (y :: z :: (parts ++ [x]))%list.
  rewrite !join_cons.
  change (z :: (parts ++ [x]))%list with ((z :: parts) ++ [x])%list.
  rewrite IH by discriminate.
  now rewrite !append_assoc.
Qed.

End StringFacts.

(** ** HTML escaping *)

Section HtmlFacts.
Import JsString Html.

Lemma escapeHtml_cons a s :
  escapeHtml (JsOther (String a s)) = entity a ++ escapeHtml (JsOther s).
Proof.
  unfold escapeHtml, entity. cbn [replaceAll].
  rewrite !replaceAll_app.
  f_equal.
  destruct (Ascii.eqb_spec a "&") as [->|Hamp]; [reflexivity|].
  destruct (Ascii.eqb_spec a "<") as [->|Hlt]; [reflexivity|].
  destruct (Ascii.eqb_spec a ">") as [->|Hgt]; [reflexivity|].
  destruct (Ascii.eqb_spec a quot) as [->|Hq]; [reflexivity|].
  destruct (Ascii.eqb_spec a apos) as [->|Ha]; [reflexivity|].
  apply Ascii.eqb_neq in Hamp, Hlt, Hgt, Hq, Ha.
  now rewrite !replaceAll_other by assumption.
Qed.

Lemma escapeHtml_substChars s : escapeHtml (JsOther s) = substChars entity s.
Proof.
  induction s as [|a s IH]; [reflexivity|].
  rewrite escapeHtml_cons, IH. reflexivity.
Qed.

Lemma entity_clean a c :
  In c ["<"%char; ">"%char; quot; apos] -> occurs c (entity a) = false.
Proof.
  intros Hc. unfold entity.
  destruct (Ascii.eqb_spec a "&"); [|destruct (Ascii.eqb_spec a "<");
    [|destruct (Ascii.eqb_spec a ">"); [|destruct (Ascii.eqb_spec a quot);
    [|destruct (Ascii.eqb_spec a apos)]]]];
    simpl in Hc; intuition subst; try reflexivity;
    cbn [occurs]; rewrite orb_false_r; now apply Ascii.eqb_neq.
Qed.

(** C10. [escapeHtml] gives the empty string for [null] and [undefined];
    otherwise it replaces every character by its entity, ampersands
    included, and the result holds no [<], [>], double quote or single
    quote. *)
Theorem escapeHtml_neutralizes (str : JsValue) :
  escapeHtml JsNull = ""
  /\ escapeHtml JsUndefined = ""
  /\ (forall s, escapeHtml (JsOther s) = substChars entity s)
  /\ occurs "<" (escapeHtml str) = false
  /\ occurs ">" (escapeHtml str) = false
  /\ occurs quot (escapeHtml str) = false
  /\ occurs apos (escapeHtml str) = false.
Proof.
  split; [reflexivity|]. split; [reflexivity|].
  split; [apply escapeHtml_substChars|].
  destruct str as [| |s]; [now cbn | now cbn |].
  rewrite escapeHtml_substChars.
  repeat split; apply occurs_substChars; intros a; apply entity_clean;
    simpl; auto.
Qed.

End HtmlFacts.

(** ** Insertion-ordered containers *)

Section AssocFacts.
Context {V : Type}.
Implicit Types (m : Assoc.t V) (k : string) (v : V).

Lemma get_set m k v k' :
  Assoc.get (Assoc.set m k v) k' = if k =? k' then Some v else Assoc.get m k'.
Proof.
  induction m as [|[k0 v0] m IH]; simpl.
  - reflexivity.
  - destruct (String.eqb_spec k0 k) as [->|Hk]; simpl.
    + destruct (String.eqb_spec k k'); reflexivity.
    + rewrite IH. destruct (String.eqb_spec k0 k') as [->|Hk'].
      * destruct (String.eqb_spec k k'); congruence.
      * reflexivity.
Qed.

Lemma get_delete m k k' :
  Assoc.get (Assoc.delete m k) k' = if k =? k' then None else Assoc.get m k'.
Proof.
  induction m as [|[k0 v0] m IH]; simpl.
  - now destruct (k =? k').
  - destruct (String.eqb_spec k0 k) as [->|Hk]; simpl.
    + rewrite IH. destruct (String.eqb_spec k k'); reflexivity.
    + rewrite IH. destruct (String.eqb_spec k0 k') as [->|Hk'].
      * destruct (String.eqb_spec k k'); congruence.
      * reflexivity.
Qed.

Lemma get_absent m k : ~ In k (Assoc.keys m) -> Assoc.get m k = None.
Proof.
  induction m as [|[k0 v0] m IH]; simpl; [reflexivity|].
  intros H. destruct (String.eqb_spec k0 k); [tauto|]. apply IH. tauto.
Qed.

Lemma get_present m k v :
  NoDup (Assoc.keys m) -> In (k, v) m -> Assoc.get m k = Some v.
Proof.
  induction m as [|[k0 v0] m IH]; simpl; [tauto|].
  intros Hnd [Heq|Hin].
  - inversion Heq; subst. now rewrite String.eqb_refl.
  - inversion Hnd as [|? ? Hk0 Hnd']; subst.
    destruct (String.eqb_spec k0 k) as [->|_].
    + exfalso. apply Hk0. unfold Assoc.keys. change k with (fst (k, v)).
      now apply in_map.
    + now apply IH.
Qed.

Lemma set_absent m k v :
  ~ In k (Assoc.keys m) -> Assoc.set m k v = (m ++ [(k, v)])%list.
Proof.
  induction m as [|[k0 v0] m IH]; simpl; [reflexivity|].
  intros H. destruct (String.eqb_spec k0 k); [tauto|]. rewrite IH; tauto.
Qed.

Lemma fold_set_fresh (l : list (string * V)) m :
  NoDup (Assoc.keys m ++ map fst l) ->
  fold_left (fun m kv => Assoc.set m (fst kv) (snd kv)) l m = (m ++ l)%list.
Proof.
  revert m. induction l as [|[k v] l IH]; intros m Hnd; simpl.
  - now rewrite app_nil_r.
  - simpl in Hnd. rewrite set_absent.
    + rewrite IH.
      * now rewrite <- app_assoc.
      * unfold Assoc.keys in *. rewrite map_app. simpl.
        rewrite <- app_assoc. exact Hnd.
    + apply NoDup_remove_2 in Hnd. intros Hin. apply Hnd.
      apply in_or_app. now left.
Qed.

(** A [Map] built from entries with distinct keys lists them as given. *)
Lemma fromEntries_distinct (l : list (string * V)) :
  NoDup (map fst l) -> Assoc.fromEntries l = l.
Proof. intros H. unfold Assoc.fromEntries. now rewrite fold_set_fresh. Qed.

End AssocFacts.

(** ** Filter state and query builder *)

Section FilterFacts.
Import JsString Filters.

(** C2, as the code has it.  Two clicks on the same bar leave the entry
    of the clicked dimension absent when it was absent, at the clicked
    value when it held that value, and absent as well when it held another
    value: the first click replaces that value and the second removes the
    replacement. *)
Theorem addChartFilter_twice (chartFilters : Assoc.t string) (d v : string) :
  Assoc.get (addChartFilter (addChartFilter chartFilters d v) d v) d =
  match Assoc.get chartFilters d with
  | Some current => if current =? v then Some v else None
  | None => None
  end.
Proof.
  unfold addChartFilter at 2.
  destruct (Assoc.get chartFilters d) as [current|] eqn:Hget.
  - destruct (String.eqb_spec current v) as [->|Hne].
    + unfold addChartFilter. rewrite get_delete, String.eqb_refl.
      now rewrite get_set, String.eqb_refl.
    + unfold addChartFilter. rewrite get_set, !String.eqb_refl.
      now rewrite get_delete, String.eqb_refl.
  - unfold addChartFilter. rewrite get_set, !String.eqb_refl.
    now rewrite get_delete, String.eqb_refl.
Qed.

(** C2, refuted as stated: a dimension that held another value does not
    get it back. *)
Lemma addChartFilter_twice_loses_other_value :
  let chartFilters := [("role", "Analyst")] in
  Assoc.get (addChartFilter (addChartFilter chartFilters "role" "Data Engineer")
                            "role" "Data Engineer") "role" = None
  /\ Assoc.get chartFilters "role" = Some "Analyst".
Proof. split; reflexivity. Qed.

(** X23. A click on a bar changes the chart filter of the clicked
    dimension only: the entry of every other dimension is as before. *)
Lemma addChartFilter_other (chartFilters : Assoc.t string) (d v d' : string) :
  d <> d' ->
  Assoc.get (addChartFilter chartFilters d v) d' = Assoc.get chartFilters d'.
Proof.
  intros Hne. apply String.eqb_neq in Hne. unfold addChartFilter.
  destruct (Assoc.get chartFilters d) as [current|];
    [destruct (current =? v)|]; now rewrite ?get_delete, ?get_set, Hne.
Qed.

Lemma sidebarConditions_active (fs : FilterState) (config : Assoc.t string) :
  flat_map (fun '(selectId, column) =>
              let value := selectValue fs selectId in
              if truthy value then [equality column value] else []) config
  = map (fun c => equality (fst c) (snd c))
      (flat_map (fun '(selectId, column) =>
                   let value := selectValue fs selectId in
                   if truthy value then [(column, value)] else []) config).
Proof.
  induction config as [|[selectId column] config IH]; [reflexivity|].
  cbn [flat_map]. cbv zeta in IH |- *. rewrite map_app, <- IH.
  now destruct (truthy (selectValue fs selectId)).
Qed.

(** The conditions of the clause are the active filters, rendered. *)
Lemma conditions_activeFilters (fs : FilterState) :
  (sidebarConditions fs ++ chartConditions fs)%list
  = map (fun c => equality (fst c) (snd c)) (activeFilters fs).
Proof.
  unfold sidebarConditions, chartConditions, activeFilters.
  rewrite map_app, sidebarConditions_active. f_equal.
  apply map_ext. now intros [column value].
Qed.

Lemma sidebar_none (fs : FilterState) (config : Assoc.t string) :
  existsb (fun '(selectId, _) => truthy (selectValue fs selectId)) config = false
  <-> flat_map (fun '(selectId, column) =>
                  let value := selectValue fs selectId in
                  if truthy value then [(column, value)] else []) config = [].
Proof.
  induction config as [|[selectId column] config IH]; [now split|].
  cbn [existsb flat_map]. cbv zeta in IH |- *.
  rewrite orb_false_iff, IH.
  destruct (truthy (selectValue fs selectId)); simpl; split;
    try tauto; try discriminate.
  intros [H _]. discriminate.
Qed.

Lemma activeFilters_none (fs : FilterState) :
  anyFilterActive fs = false <-> activeFilters fs = [].
Proof.
  unfold anyFilterActive, activeFilters.
  pose proof (sidebar_none fs filterConfig) as Hside. cbv zeta in Hside |- *.
  rewrite orb_false_iff, negb_false_iff, Nat.eqb_eq, length_zero_iff_nil.
  split.
  - intros [H ->]. apply Hside in H. now rewrite H.
  - intros H. apply app_eq_nil in H as [H ->]. now apply Hside in H.
Qed.

(** Every quote of a filter value is doubled in the emitted literal. *)
Lemma escapeQuotes_doubles (value : string) :
  countChar "'" (escapeQuotes value) = 2 * countChar "'" value
  /\ String.length (escapeQuotes value)
     = String.length value + countChar "'" value.
Proof.
  unfold escapeQuotes. induction value as [|a value [IHc IHl]]; [now split|].
  cbn [replaceAll].
  rewrite countChar_app, IHc. cbn [countChar String.length].
  destruct (Ascii.eqb a "'") eqn:Ha.
  - cbn [append String.length]. rewrite IHl. cbn. split; lia.
  - cbn [append String.length countChar]. rewrite Ha, IHl. split; lia.
Qed.

(** X22. The literal emitted for a filter value reads back as the value
    itself, whatever quotes it holds. *)
Lemma escapeQuotes_read_back (value : string) :
  Engine.literalValue (escapeQuotes value) = Some value.
Proof.
  unfold escapeQuotes. induction value as [|a value IH]; [reflexivity|].
  cbn [replaceAll].
  destruct (Ascii.eqb_spec a "'") as [->|Hne].
  - cbn. now rewrite IH.
  - cbn [append Engine.literalValue].
    apply Ascii.eqb_neq in Hne. now rewrite Hne, IH.
Qed.

(** The columns of the sidebar conditions are those of [filterConfig]. *)
Lemma sidebar_columns_allowlisted (fs : FilterState) (c : Condition) :
  In c (activeFilters {| selectValue := selectValue fs; chartFilters := [] |}) ->
  allowlisted (fst c) = true.
Proof.
  unfold activeFilters. cbn [chartFilters selectValue]. rewrite app_nil_r.
  cbn [filterConfig flat_map]. cbv zeta.
  repeat match goal with
         | |- context [truthy ?s] => destruct (truthy s)
         end;
    cbn [app In]; intuition subst; reflexivity.
Qed.

(** X21. The sidebar loop of [restoreStateFromUrl] validates what it
    reads: whatever the address holds, a dropdown keeps its value or takes
    one of its own options. *)
Lemma restoreSidebar_validated param options selectValue id :
  restoreSidebar param options selectValue id = selectValue id
  \/ In (restoreSidebar param options selectValue id) (options id).
Proof.
  unfold restoreSidebar.
  assert (Hfold : forall config sel,
            (sel id = selectValue id \/ In (sel id) (options id)) ->
            let sel' :=
              fold_left
                (fun sel '(selectId, column) =>
                   match param column with
                   | Some value =>
                       if truthy value && existsb (String.eqb value) (options selectId)
                       then fun id => if id =? selectId then value else sel id
                       else sel
                   | None => sel
                   end) config sel in
            sel' id = selectValue id \/ In (sel' id) (options id)).
  { induction config as [|[selectId column] config IH]; intros sel Hsel;
      [exact Hsel|].
    cbn [fold_left]. apply IH.
    destruct (param column) as [value|]; [|exact Hsel].
    destruct (truthy value && existsb (String.eqb value) (options selectId))
      eqn:Hok; [|exact Hsel].
    destruct (String.eqb_spec id selectId) as [->|_]; [|exact Hsel].
    right. apply andb_true_iff in Hok as [_ Hok].
    apply existsb_exists in Hok as (o & Ho & Heq).
    apply String.eqb_eq in Heq. now subst. }
  apply Hfold. now left.
Qed.

(** C4, at the failing input.  A chart filter restored from the page
    address brings its own column name, which is not a configured one, and
    [getWhereClause] interpolates it as it is. *)
Theorem restored_column_interpolated :
  let filters := [("1=1 OR role", "x")] in
  let fs := {| selectValue := fun _ => "";
               chartFilters := restoreChartFilters [] filters |} in
  getWhereClause fs = "WHERE 1=1 OR role = 'x'"
  /\ allowlisted "1=1 OR role" = false.
Proof. split; reflexivity. Qed.

End FilterFacts.

(** ** Sorting *)

Section SortFacts.
Import Engine.
Context {A : Type} (cmp : A -> A -> comparison).

Lemma insertBy_perm x l : Permutation (insertBy cmp x l) (x :: l).
Proof.
  induction l as [|y l IH]; simpl; [reflexivity|].
  destruct (cmp x y); try reflexivity.
  rewrite IH. apply perm_swap.
Qed.

Lemma sortBy_perm l : Permutation (sortBy cmp l) l.
Proof.
  induction l as [|x l IH]; simpl; [reflexivity|].
  rewrite insertBy_perm. now constructor.
Qed.

Lemma insertBy_head x l : HdRel (inOrder cmp) x l -> insertBy cmp x l = x :: l.
Proof.
  intros H. destruct l as [|y l]; [reflexivity|].
  inversion H as [|? ? Hxy]; subst. unfold inOrder in Hxy. simpl.
  destruct (cmp x y); congruence.
Qed.

(** Sorting a list that is in order already leaves it as it is. *)
Lemma sortBy_sorted_id l : Sorted (inOrder cmp) l -> sortBy cmp l = l.
Proof.
  induction 1 as [|x l Hs IH Hhd]; simpl; [reflexivity|].
  rewrite IH. now apply insertBy_head.
Qed.

Hypothesis cmp_total : forall a b, cmp a b = Gt -> cmp b a <> Gt.

Lemma insertBy_sorted x l : Sorted (inOrder cmp) l -> Sorted (inOrder cmp) (insertBy cmp x l).
Proof.
  induction 1 as [|y l Hs IH Hhd]; simpl.
  - repeat constructor.
  - destruct (cmp x y) eqn:Hxy.
    + constructor; [now constructor|]. constructor. unfold inOrder. congruence.
    + constructor; [now constructor|]. constructor. unfold inOrder. congruence.
    + constructor; [exact IH|].
      destruct l as [|z l]; simpl.
      * constructor. now apply cmp_total.
      * destruct (cmp x z); constructor;
          try (now apply cmp_total); inversion Hhd; assumption.
Qed.

Lemma sortBy_sorted l : Sorted (inOrder cmp) (sortBy cmp l).
Proof.
  induction l as [|x l IH]; simpl; [constructor|]. now apply insertBy_sorted.
Qed.

End SortFacts.

(** ** Counting *)

Section CountFacts.
Import Engine Crosstab.

Lemma sumZ_of_nat (l : list nat) :
  sumZ (map Z.of_nat l) = Z.of_nat (list_sum l).
Proof. induction l as [|n l IH]; simpl; [reflexivity|]. rewrite IH. lia. Qed.

Lemma fold_left_add_sumZ (l : list Z) (acc : Z) :
  fold_left Z.add l acc = (acc + sumZ l)%Z.
Proof.
  revert acc. induction l as [|n l IH]; intros acc; simpl; [lia|].
  rewrite IH. lia.
Qed.

(** Over distinct keys, exactly one indicator of a listed key is set. *)
Lemma indicator_sum (ks : list string) (k0 : string) (f : string -> bool) :
  NoDup ks -> In k0 ks -> (forall k, f k = true <-> k = k0) ->
  list_sum (map (fun k => if f k then 1 else 0) ks) = 1.
Proof.
  intros Hnd Hin Hf. induction ks as [|k ks IH]; [contradiction|].
  inversion Hnd as [|? ? Hk Hnd']; subst. simpl.
  destruct (f k) eqn:Hfk.
  - apply Hf in Hfk. subst k.
    assert (Hz : list_sum (map (fun k => if f k then 1 else 0) ks) = 0).
    { clear IH Hin Hnd. induction ks as [|k ks IH]; [reflexivity|]. simpl.
      inversion Hnd' as [|? ? Hk' Hnd'']; subst.
      destruct (f k) eqn:Hfk.
      - apply Hf in Hfk. subst. exfalso. apply Hk. now left.
      - apply IH; [|assumption]. intros Hin. apply Hk. now right. }
    now rewrite Hz.
  - destruct Hin as [->|Hin].
    + assert (f k0 = true) by now apply Hf. congruence.
    + now rewrite IH.
Qed.

Lemma list_sum_plus {K} (f g : K -> nat) (ks : list K) :
  list_sum (map (fun k => f k + g k) ks)
  = list_sum (map f ks) + list_sum (map g ks).
Proof. induction ks as [|k ks IH]; simpl; [reflexivity|]. rewrite IH. lia. Qed.

Lemma list_sum_zero {K} (f : K -> nat) (ks : list K) :
  (forall k, f k = 0) -> list_sum (map f ks) = 0.
Proof.
  intros Hf. induction ks as [|k ks IH]; simpl; [reflexivity|].
  now rewrite Hf, IH.
Qed.

Lemma count_occ_pair_cons (r0 c0 r c : string) (pairs : list (string * string)) :
  count_occ pair_dec ((r0, c0) :: pairs) (r, c)
  = (if (r0 =? r) && (c0 =? c) then 1 else 0) + count_occ pair_dec pairs (r, c).
Proof.
  cbn [count_occ]. destruct (pair_dec (r0, c0) (r, c)) as [Heq|Hne].
  - inversion Heq; subst. now rewrite !String.eqb_refl.
  - destruct (String.eqb_spec r0 r), (String.eqb_spec c0 c); simpl;
      congruence.
Qed.

Lemma count_occ_string_cons (x r : string) (l : list string) :
  count_occ string_dec (x :: l) r
  = (if x =? r then 1 else 0) + count_occ string_dec l r.
Proof.
  cbn [count_occ]. destruct (string_dec x r) as [->|Hne].
  - now rewrite String.eqb_refl.
  - apply String.eqb_neq in Hne. now rewrite Hne.
Qed.

(** Summing the occurrences of the pairs [(r, c)] over distinct [c] that
    cover the second components counts the first components equal to [r]. *)
Lemma sum_count_fst (pairs : list (string * string)) (cs : list string) (r : string) :
  NoDup cs -> incl (map snd pairs) cs ->
  list_sum (map (fun c => count_occ pair_dec pairs (r, c)) cs)
  = count_occ string_dec (map fst pairs) r.
Proof.
  intros Hnd Hincl. induction pairs as [|[r0 c0] pairs IH].
  - now apply list_sum_zero.
  - assert (Hc0 : In c0 cs) by (apply Hincl; now left).
    assert (Hrest : incl (map snd pairs) cs)
      by (intros x Hx; apply Hincl; now right).
    cbn [map fst]. rewrite count_occ_string_cons, <- (IH Hrest).
    rewrite (map_ext _ _ (fun c => count_occ_pair_cons r0 c0 r c pairs)).
    rewrite list_sum_plus. f_equal.
    destruct (String.eqb_spec r0 r) as [->|Hne]; cbn [andb].
    + apply (indicator_sum cs c0 (fun c => c0 =? c) Hnd Hc0).
      intros k. rewrite String.eqb_eq. split; congruence.
    + now apply list_sum_zero.
Qed.

Lemma sum_count_snd (pairs : list (string * string)) (rs : list string) (c : string) :
  NoDup rs -> incl (map fst pairs) rs ->
  list_sum (map (fun r => count_occ pair_dec pairs (r, c)) rs)
  = count_occ string_dec (map snd pairs) c.
Proof.
  intros Hnd Hincl. induction pairs as [|[r0 c0] pairs IH].
  - now apply list_sum_zero.
  - assert (Hr0 : In r0 rs) by (apply Hincl; now left).
    assert (Hrest : incl (map fst pairs) rs)
      by (intros x Hx; apply Hincl; now right).
    cbn [map snd]. rewrite count_occ_string_cons, <- (IH Hrest).
    rewrite (map_ext _ _ (fun r => count_occ_pair_cons r0 c0 r c pairs)).
    rewrite list_sum_plus. f_equal.
    destruct (String.eqb_spec c0 c) as [->|Hne].
    + rewrite (map_ext _ (fun r => if r0 =? r then 1 else 0)).
      * apply (indicator_sum rs r0 (fun r => r0 =? r) Hnd Hr0).
        intros k. rewrite String.eqb_eq. split; congruence.
      * intros r. now rewrite andb_true_r.
    + apply list_sum_zero. intros r. now rewrite andb_false_r.
Qed.

End CountFacts.

(** ** The reference engine *)

Section EngineFacts.
Import JsString Filters Engine.

Lemma byTotalDesc_total a b : byTotalDesc a b = Gt -> byTotalDesc b a <> Gt.
Proof.
  unfold byTotalDesc. rewrite !Z.compare_gt_iff. lia.
Qed.

Lemma referenceTotals_sorted db q :
  Sorted (inOrder byTotalDesc) (referenceTotals db q).
Proof. apply sortBy_sorted, byTotalDesc_total. Qed.

Lemma referenceTotals_vals db q :
  Permutation (map val (referenceTotals db q))
              (nodup string_dec (totalsKeys db q)).
Proof.
  unfold referenceTotals. cbv zeta.
  rewrite (Permutation_map val (sortBy_perm byTotalDesc _)).
  rewrite map_map. cbn [val]. now rewrite map_id.
Qed.

Lemma referenceTotals_distinct db q : NoDup (map val (referenceTotals db q)).
Proof.
  eapply Permutation_NoDup; [symmetry; apply referenceTotals_vals|].
  apply NoDup_nodup.
Qed.

Lemma referenceTotals_in db q tr :
  In tr (referenceTotals db q) <->
  In (val tr) (totalsKeys db q)
  /\ total tr = Z.of_nat (count_occ string_dec (totalsKeys db q) (val tr)).
Proof.
  unfold referenceTotals. cbv zeta. split.
  - intros H. apply (Permutation_in _ (sortBy_perm byTotalDesc _)) in H.
    apply in_map_iff in H as (k & <- & Hk). apply nodup_In in Hk. now split.
  - intros [Hk Ht].
    apply (Permutation_in _ (Permutation_sym (sortBy_perm byTotalDesc _))).
    apply in_map_iff. exists (val tr). split; [|now apply nodup_In].
    destruct tr as [v t]. cbn in *. now subst.
Qed.

Lemma referenceDetail_pairs db q :
  Permutation (map (fun d => (row_val d, col_val d)) (referenceDetail db q))
              (nodup pair_dec (detailKeys db q)).
Proof.
  unfold referenceDetail. cbv zeta.
  rewrite (Permutation_map _ (sortBy_perm byRowCol _)).
  rewrite map_map. cbn [row_val col_val].
  rewrite (map_ext _ (fun k => k)); [now rewrite map_id|]. now intros [r c].
Qed.

Lemma referenceDetail_in db q d :
  In d (referenceDetail db q) <->
  In (row_val d, col_val d) (detailKeys db q)
  /\ count d = Z.of_nat (count_occ pair_dec (detailKeys db q) (row_val d, col_val d)).
Proof.
  unfold referenceDetail. cbv zeta. split.
  - intros H. apply (Permutation_in _ (sortBy_perm byRowCol _)) in H.
    apply in_map_iff in H as ([r c] & <- & Hk). apply nodup_In in Hk.
    now split.
  - intros [Hk Ht].
    apply (Permutation_in _ (Permutation_sym (sortBy_perm byRowCol _))).
    apply in_map_iff. exists (row_val d, col_val d).
    split; [|now apply nodup_In].
    destruct d as [r c n]. cbn in *. now subst.
Qed.

End EngineFacts.

(** ** The assembled matrix *)

Section MatrixFacts.
Import JsString Filters Engine Crosstab.

Lemma cellKey_inj r c r' c' :
  occurs "|" r = false -> occurs "|" r' = false ->
  cellKey r c = cellKey r' c' -> r = r' /\ c = c'.
Proof.
  unfold cellKey. revert r'. induction r as [|a r IH]; intros [|a' r'] Hr Hr' H.
  - cbn in H. split; congruence.
  - cbn in H. injection H as <- _. cbn in Hr'. discriminate.
  - cbn in H. injection H as -> _. cbn in Hr. discriminate.
  - cbn in H. injection H as -> H. cbn in Hr, Hr'.
    apply orb_false_iff in Hr as [_ Hr]. apply orb_false_iff in Hr' as [_ Hr'].
    destruct (IH r' Hr Hr' H) as [-> ->]. now split.
Qed.

Lemma fill_absent data m k :
  ~ In k (map keyOf data) -> Assoc.get (fill data m) k = Assoc.get m k.
Proof.
  revert m. induction data as [|d data IH]; intros m Hk; [reflexivity|].
  unfold fill. cbn [fold_left]. fold (fill data (Assoc.set m (keyOf d) (count d))).
  rewrite IH.
  - rewrite get_set. destruct (String.eqb_spec (keyOf d) k) as [Heq|]; [|reflexivity].
    exfalso. apply Hk. now left.
  - intros Hin. apply Hk. now right.
Qed.

Lemma fill_present data m d :
  NoDup (map keyOf data) -> In d data ->
  Assoc.get (fill data m) (keyOf d) = Some (count d).
Proof.
  revert m. induction data as [|d0 data IH]; intros m Hnd Hin; [contradiction|].
  cbn [map] in Hnd. inversion Hnd as [|? ? Hd0 Hnd']; subst.
  unfold fill. cbn [fold_left]. fold (fill data (Assoc.set m (keyOf d0) (count d0))).
  destruct (in_dec string_dec (keyOf d) (map keyOf data)) as [Hlater|Hnot].
  - destruct Hin as [->|Hin]; [contradiction|]. now apply IH.
  - destruct Hin as [->|Hin].
    + rewrite fill_absent by assumption. now rewrite get_set, String.eqb_refl.
    + exfalso. apply Hnot. now apply in_map.
Qed.

End MatrixFacts.

(** ** Crosstab over the reference engine *)

Section CrosstabFacts.
Import JsString Filters Engine Crosstab.

Lemma totals_entries_distinct db q :
  NoDup (map fst (map (fun r => (val r, total r)) (referenceTotals db q))).
Proof. rewrite map_map. cbn [fst]. apply referenceTotals_distinct. Qed.

Lemma totals_map db q :
  Assoc.fromEntries (map (fun r => (val r, total r)) (referenceTotals db q))
  = map (fun r => (val r, total r)) (referenceTotals db q).
Proof. apply fromEntries_distinct, totals_entries_distinct. Qed.

Lemma totals_keys db q :
  Assoc.keys (Assoc.fromEntries
                (map (fun r => (val r, total r)) (referenceTotals db q)))
  = map val (referenceTotals db q).
Proof. rewrite totals_map. unfold Assoc.keys. now rewrite map_map. Qed.

Lemma totals_key_in db q k :
  In k (map val (referenceTotals db q)) <-> In k (totalsKeys db q).
Proof.
  split; intros H.
  - apply (Permutation_in _ (referenceTotals_vals db q)) in H.
    now apply nodup_In in H.
  - apply (Permutation_in _ (Permutation_sym (referenceTotals_vals db q))).
    now apply nodup_In.
Qed.

(** The total stored for a key is the number of its occurrences. *)
Lemma totalOf_reference db q k :
  totalOf (Assoc.fromEntries
             (map (fun r => (val r, total r)) (referenceTotals db q))) k
  = Z.of_nat (count_occ string_dec (totalsKeys db q) k).
Proof.
  unfold totalOf. rewrite totals_map.
  destruct (in_dec string_dec k (totalsKeys db q)) as [Hin|Hnot].
  - rewrite (get_present _ k (Z.of_nat (count_occ string_dec (totalsKeys db q) k)));
      [reflexivity | apply totals_entries_distinct |].
    apply in_map_iff.
    exists {| val := k; total := Z.of_nat (count_occ string_dec (totalsKeys db q) k) |}.
    split; [reflexivity|]. apply referenceTotals_in. now split.
  - rewrite get_absent.
    + apply (count_occ_not_In string_dec) in Hnot. now rewrite Hnot.
    + unfold Assoc.keys. rewrite map_map. cbn [fst].
      now rewrite totals_key_in.
Qed.

Lemma NoDup_map_through {X Y Z' : Type} (g : X -> Y) (h : Y -> Z') (l : list X) :
  NoDup (map g l) ->
  (forall x y, In x l -> In y l -> h (g x) = h (g y) -> g x = g y) ->
  NoDup (map (fun x => h (g x)) l).
Proof.
  induction l as [|x l IH]; intros Hnd Hinj; [constructor|].
  cbn [map] in *. inversion Hnd as [|? ? Hx Hnd']; subst. constructor.
  - intros Hin. apply in_map_iff in Hin as (y & Hy & Hyl).
    apply Hx. rewrite <- (Hinj y x); [now apply in_map | now right | now left | exact Hy].
  - apply IH; [assumption|]. intros a b Ha Hb. apply Hinj; now right.
Qed.

(** When no row value holds the separator character, the cell read back
    for a pair is the number of occurrences of the pair. *)
Lemma cellCount_reference db q r c :
  (forall d, In d (referenceDetail db q) -> occurs "|" (row_val d) = false) ->
  occurs "|" r = false ->
  cellCount (fill (referenceDetail db q) []) r c
  = Z.of_nat (count_occ pair_dec (detailKeys db q) (r, c)).
Proof.
  intros Hdata Hr. unfold cellCount.
  assert (Hnd : NoDup (map keyOf (referenceDetail db q))).
  { apply (NoDup_map_through (fun d => (row_val d, col_val d))
             (fun k => cellKey (fst k) (snd k))).
    - eapply Permutation_NoDup; [symmetry; apply referenceDetail_pairs|].
      apply NoDup_nodup.
    - intros x y Hx Hy Hk. cbn [fst snd] in Hk.
      apply cellKey_inj in Hk as [-> ->]; auto. }
  destruct (in_dec pair_dec (r, c) (detailKeys db q)) as [Hin|Hnot].
  - set (n := Z.of_nat (count_occ pair_dec (detailKeys db q) (r, c))).
    assert (Hd : In {| row_val := r; col_val := c; count := n |}
                    (referenceDetail db q))
      by (apply referenceDetail_in; now split).
    change (cellKey r c)
      with (keyOf {| row_val := r; col_val := c; count := n |}).
    now rewrite (fill_present _ [] _ Hnd Hd).
  - rewrite fill_absent.
    + apply (count_occ_not_In pair_dec) in Hnot. now rewrite Hnot.
    + intros Hin. apply in_map_iff in Hin as (d & Hk & Hd).
      apply cellKey_inj in Hk as [Hrow Hcol]; auto.
      apply referenceDetail_in in Hd as [Hd _]. rewrite Hrow, Hcol in Hd.
      contradiction.
Qed.

(** Over the reference engine, a call with two different dimensions and a
    non-empty crosstab answer sends its three queries, stores the assembled
    matrix, resets the sort and renders. *)
Lemma updateCrosstab_reference db p :
  rowsSelect p <> colsSelect p ->
  referenceDetail db (detailQuery (invocationOf p)) <> [] ->
  updateCrosstab (reference db) p
  = (renderCrosstabTable
       (withSort (Some "_total") Desc
                 (withData (assembleOver db (invocationOf p)) p)),
     [QDetail (detailQuery (invocationOf p));
      QTotals (rowTotalsQuery (invocationOf p));
      QTotals (colTotalsQuery (invocationOf p))]).
Proof.
  intros Hdims Hdata. unfold updateCrosstab, start.
  apply String.eqb_neq in Hdims. rewrite Hdims.
  cbn [reference runDetail runTotals onDetail].
  destruct (referenceDetail db (detailQuery (invocationOf p))) as [|d data] eqn:Hd;
    [congruence|].
  cbn [List.length Nat.eqb onTotals]. unfold assembleOver. now rewrite Hd.
Qed.


Section SingleValued.
Variables (q : DetailQuery) (recs : list Row).
Hypothesis row_single : d_rowIsMulti q = false.
Hypothesis col_single : d_colIsMulti q = false.

Lemma detailPairs_single rec :
  detailPairs q rec =
  match rec (d_rowCol q), rec (d_colCol q) with
  | Some rv, Some cv => [(rv, cv)]
  | _, _ => []
  end.
Proof. unfold detailPairs. now rewrite row_single, col_single. Qed.

Lemma pairs_in r c :
  In (r, c) (flat_map (detailPairs q) recs) ->
  exists rec, In rec recs /\ rec (d_rowCol q) = Some r /\ rec (d_colCol q) = Some c.
Proof.
  intros H. apply in_flat_map in H as (rec & Hrec & Hin).
  rewrite detailPairs_single in Hin. exists rec.
  destruct (rec (d_rowCol q)) as [rv|], (rec (d_colCol q)) as [cv|];
    try contradiction.
  destruct Hin as [Heq|[]]. inversion Heq; subst. now repeat split.
Qed.



Lemma pairs_fst_incl (qt : TotalsQuery) :
  t_column qt = d_rowCol q -> t_isMulti qt = false ->
  incl (map fst (flat_map (detailPairs q) recs)) (flat_map (totalsTokens qt) recs).
Proof.
  intros Hcol Hsingle r Hr. apply in_map_iff in Hr as ([r' c] & <- & Hin).
  apply pairs_in in Hin as (rec & Hrec & Hrow & _).
  apply in_flat_map. exists rec. split; [assumption|].
  unfold totalsTokens. rewrite Hcol, Hsingle, Hrow. now left.
Qed.

Lemma pairs_snd_incl (qt : TotalsQuery) :
  t_column qt = d_colCol q -> t_isMulti qt = false ->
  incl (map snd (flat_map (detailPairs q) recs)) (flat_map (totalsTokens qt) recs).
Proof.
  intros Hcol Hsingle c Hc. apply in_map_iff in Hc as ([r c'] & <- & Hin).
  apply pairs_in in Hin as (rec & Hrec & _ & Hcolv).
  apply in_flat_map. exists rec. split; [assumption|].
  unfold totalsTokens. rewrite Hcol, Hsingle, Hcolv. now left.
Qed.

Lemma tokens_in (qt : TotalsQuery) k :
  t_isMulti qt = false ->
  In k (flat_map (totalsTokens qt) recs) ->
  exists rec, In rec recs /\ rec (t_column qt) = Some k.
Proof.
  intros Hsingle H. apply in_flat_map in H as (rec & Hrec & Hin).
  unfold totalsTokens in Hin. rewrite Hsingle in Hin. exists rec.
  destruct (rec (t_column qt)) as [v|]; [|contradiction].
  destruct Hin as [->|[]]. now split.
Qed.
End SingleValued.



(** The separator hypothesis is needed: with values that hold it, the cell
    (a, b|||c) reads the count of (a|||b, c) and row a adds up to more than
    its total. *)
Lemma separator_collision_breaks_row_sum :
  let cd := assembleOver Sample.colliding (invocationOf Sample.roleByRegion) in
  rowSum cd "a" = 2%Z /\ totalOf (rowTotals cd) "a" = 1%Z.
Proof. vm_compute. now split. Qed.


End CrosstabFacts.

(** ** Shape of the assembled matrix and its default order *)

Section ShapeFacts.
Import JsString Filters Engine Crosstab.

Lemma Sorted_map_in {X Y : Type} (R' : X -> X -> Prop) (R : Y -> Y -> Prop)
    (f : X -> Y) (l : list X) :
  (forall a b, In a l -> In b l -> R' a b -> R (f a) (f b)) ->
  Sorted R' l -> Sorted R (map f l).
Proof.
  intros Hf Hs. induction Hs as [|x l Hs IH Hhd]; [constructor|].
  cbn [map]. constructor.
  - apply IH. intros a b Ha Hb. apply Hf; now right.
  - destruct Hhd as [|y l Hxy]; constructor.
    apply Hf; [now left | right; now left | exact Hxy].
Qed.

Lemma Qcompare_inject_Z (x y : Z) :
  Qcompare (inject_Z x) (inject_Z y) = Z.compare x y.
Proof. unfold Qcompare. cbn. now rewrite !Z.mul_1_r. Qed.

Lemma rowOrder_total_desc (a b : RowData) :
  rowOrder (Some "_total") Desc a b = Z.compare (rd_total b) (rd_total a).
Proof. unfold rowOrder, sortValue. cbn. apply Qcompare_inject_Z. Qed.

(** Rows that come by descending total stay as they are under the default
    sort. *)
Lemma default_sort_keeps_order db (i : Invocation) :
  let cd := assembleOver db i in
  map rd_row (tbl_body (renderTable cd (Some "_total") Desc)) = rows cd.
Proof.
  intros cd. unfold renderTable. cbn [tbl_body].
  rewrite sortBy_sorted_id.
  - rewrite map_map. cbn [rd_row rowDataOf]. apply map_id.
  - unfold cd at 2. unfold assembleOver, assemble. cbv zeta. cbn [rows].
    rewrite totals_keys, map_map.
    apply (Sorted_map_in (inOrder byTotalDesc));
      [|apply referenceTotals_sorted].
    intros a b Ha Hb Hab. unfold inOrder in *.
    rewrite rowOrder_total_desc. cbn [rowDataOf rd_total].
    change (rowTotals cd)
      with (Assoc.fromEntries
              (map (fun t => (val t, total t))
                   (referenceTotals db (rowTotalsQuery i)))).
    rewrite !totalOf_reference.
    apply referenceTotals_in in Ha as [_ <-].
    apply referenceTotals_in in Hb as [_ <-].
    exact Hab.
Qed.

Lemma descending_totals db q :
  Sorted (fun a b => (total b <= total a)%Z) (referenceTotals db q).
Proof.
  pose proof (referenceTotals_sorted db q) as Hs.
  induction Hs as [|x l Hs IH Hhd]; constructor; [exact IH|].
  destruct Hhd as [|y l Hxy]; constructor.
  unfold inOrder, byTotalDesc in Hxy. now apply Z.compare_le_iff.
Qed.

(** What holds of C6 on every input.  The rows and columns of an assembled
    matrix are the keys of the two marginal answers, in the order of the
    answers, which is by descending total and is the order the table first
    shows; the keys are those that occur in the records, not all pairs; a
    cell whose key is the key of no row of the crosstab answer counts 0, and
    so does every pair absent from that answer when no row value holds the
    separator character; the grand total is the sum of the row totals and
    no fourth query is sent. *)
Theorem assembled_matrix_shape (db : Dataset) (p : Page) :
  let i := invocationOf p in
  let data := referenceDetail db (detailQuery i) in
  let rowAnswer := referenceTotals db (rowTotalsQuery i) in
  let colAnswer := referenceTotals db (colTotalsQuery i) in
  rowsSelect p <> colsSelect p ->
  data <> [] ->
  exists cd,
    crosstabData (fst (updateCrosstab (reference db) p)) = Some cd
    /\ snd (updateCrosstab (reference db) p)
       = [QDetail (detailQuery i); QTotals (rowTotalsQuery i);
          QTotals (colTotalsQuery i)]
    /\ rows cd = map val rowAnswer
    /\ cols cd = map val colAnswer
    /\ (forall k, In k (rows cd) <-> In k (totalsKeys db (rowTotalsQuery i)))
    /\ (forall k, In k (cols cd) <-> In k (totalsKeys db (colTotalsQuery i)))
    /\ Sorted (fun a b => (total b <= total a)%Z) rowAnswer
    /\ Sorted (fun a b => (total b <= total a)%Z) colAnswer
    /\ results (fst (updateCrosstab (reference db) p))
       = Rendered (renderTable cd (Some "_total") Desc)
    /\ map rd_row (tbl_body (renderTable cd (Some "_total") Desc)) = rows cd
    /\ tbl_cols (renderTable cd (Some "_total") Desc) = cols cd
    /\ (forall r c, ~ In (cellKey r c) (map keyOf data) ->
                    cellCount (matrix cd) r c = 0%Z)
    /\ ((forall d, In d data -> occurs "|" (row_val d) = false) ->
        forall r c, occurs "|" r = false ->
                    (forall n, ~ In {| row_val := r; col_val := c; count := n |} data) ->
                    cellCount (matrix cd) r c = 0%Z)
    /\ grandTotal cd = sumZ (map total rowAnswer).
Proof.
  intros i data rowAnswer colAnswer Hdims Hdata.
  exists (assembleOver db i).
  rewrite (updateCrosstab_reference db p Hdims Hdata). cbn [fst snd].
  assert (Hrows : rows (assembleOver db i) = map val rowAnswer) by apply totals_keys.
  assert (Hcols : cols (assembleOver db i) = map val colAnswer) by apply totals_keys.
  assert (Habsent : forall r c, ~ In (cellKey r c) (map keyOf data) ->
                                cellCount (matrix (assembleOver db i)) r c = 0%Z).
  { intros r c Hk. unfold cellCount.
    change (matrix (assembleOver db i)) with (fill data []).
    now rewrite fill_absent. }
  repeat split; try reflexivity; try assumption.
  - rewrite Hrows. apply totals_key_in.
  - rewrite Hrows. apply totals_key_in.
  - rewrite Hcols. apply totals_key_in.
  - rewrite Hcols. apply totals_key_in.
  - apply descending_totals.
  - apply descending_totals.
  - apply default_sort_keeps_order.
  - intros Hbar r c Hr Hnone. apply Habsent. intros Hin.
    apply in_map_iff in Hin as (d & Hk & Hd).
    apply cellKey_inj in Hk as [Hrow Hcol]; auto.
    apply (Hnone (count d)). destruct d as [r' c' n]. cbn in *. now subst.
  - change (grandTotal (assembleOver db i))
      with (fold_left Z.add
              (Assoc.values
                 (Assoc.fromEntries (map (fun t => (val t, total t)) rowAnswer)))
              0%Z).
    unfold rowAnswer. rewrite totals_map, fold_left_add_sumZ.
    unfold Assoc.values. now rewrite map_map.
Qed.

(** C6, at the failing input.  Every pair absent from the crosstab answer
    should count 0; the pair (a, b|||c) is absent and its cell reads 1, the
    count of the pair (a|||b, c), which has the same key. *)
Lemma absent_pair_reads_other_cell :
  let i := invocationOf Sample.roleByRegion in
  let data := referenceDetail Sample.colliding (detailQuery i) in
  let cd := assembleOver Sample.colliding i in
  crosstabData (fst (updateCrosstab (reference Sample.colliding) Sample.roleByRegion))
  = Some cd
  /\ In "a" (rows cd) /\ In "b|||c" (cols cd)
  /\ existsb (fun d => (row_val d =? "a") && (col_val d =? "b|||c")) data = false
  /\ cellCount (matrix cd) "a" "b|||c" = 1%Z.
Proof. vm_compute. repeat split; auto 10. Qed.

Lemma assembled_matrix_shape_witness :
  exists cd,
    crosstabData (fst (updateCrosstab (reference Sample.complete) Sample.roleByRegion))
    = Some cd
    /\ rows cd = ["Engineer"; "Analyst"]
    /\ cols cd = ["Europe"; "Asia"]
    /\ grandTotal cd = 4%Z.
Proof.
  destruct (assembled_matrix_shape Sample.complete Sample.roleByRegion)
    as (cd & Hcd & _ & Hrows & Hcols & _ & _ & _ & _ & _ & _ & _ & _ & _ & Hgrand).
  - discriminate.
  - vm_compute. discriminate.
  - exists cd. repeat split; [exact Hcd | | | ].
    + rewrite Hrows. vm_compute. reflexivity.
    + rewrite Hcols. vm_compute. reflexivity.
    + rewrite Hgrand. vm_compute. reflexivity.
Defined.

End ShapeFacts.

(** ** Sort state, invalid pivot, overlapping calls *)

Section StateFacts.
Import JsString Filters Engine Crosstab EventLoop.

(** C7. A freshly assembled matrix resets the sort to the row total,
    descending.  A click on the active sort key flips the direction, a
    click on another key makes it active with direction descending.  A
    click re-renders the stored matrix: the data are untouched, nothing is
    sent and nothing is in flight that was not. *)
Theorem sort_state_transitions :
  (forall i data rowTotalsResult colTotalsResult p,
     let p' := onTotals i data (Rows rowTotalsResult) (Rows colTotalsResult) p in
     crosstabData p' = Some (assemble i data rowTotalsResult colTotalsResult)
     /\ crosstabSortCol p' = Some "_total"
     /\ crosstabSortDir p' = Desc)
  /\ (forall col p,
        crosstabSortCol p = Some col ->
        crosstabSortCol (sortClicked col p) = Some col
        /\ crosstabSortDir (sortClicked col p)
           = match crosstabSortDir p with Desc => Asc | Asc => Desc end)
  /\ (forall col p,
        crosstabSortCol p <> Some col ->
        crosstabSortCol (sortClicked col p) = Some col
        /\ crosstabSortDir (sortClicked col p) = Desc)
  /\ (forall col p cd,
        crosstabData p = Some cd ->
        crosstabData (sortClicked col p) = Some cd
        /\ results (sortClicked col p)
           = Rendered (renderTable cd (crosstabSortCol (sortClicked col p))
                                   (crosstabSortDir (sortClicked col p))))
  /\ (forall col w,
        sent (step w (HeaderClicked col)) = sent w
        /\ inflight (step w (HeaderClicked col)) = inflight w
        /\ calls (step w (HeaderClicked col)) = calls w).
Proof.
  assert (Hrender : forall p col dir,
            crosstabSortCol (renderCrosstabTable (withSort col dir p)) = col
            /\ crosstabSortDir (renderCrosstabTable (withSort col dir p)) = dir
            /\ crosstabData (renderCrosstabTable (withSort col dir p))
               = crosstabData p).
  { intros p col dir. unfold renderCrosstabTable.
    change (crosstabData (withSort col dir p)) with (crosstabData p).
    destruct (crosstabData p) as [cd|] eqn:Hcd; cbn; rewrite ?Hcd; repeat split. }
  split; [|split; [|split; [|split]]].
  - intros i data rowTotalsResult colTotalsResult p. cbn. repeat split.
  - intros col p Hcol. unfold sortClicked. rewrite Hcol, String.eqb_refl.
    destruct (Hrender p (Some col)
                (match crosstabSortDir p with Desc => Asc | Asc => Desc end))
      as (-> & -> & _).
    now split.
  - intros col p Hcol. unfold sortClicked.
    destruct (crosstabSortCol p) as [current|] eqn:Hcur.
    + destruct (String.eqb_spec current col) as [->|_]; [congruence|].
      destruct (Hrender p (Some col) Desc) as (-> & -> & _). now split.
    + destruct (Hrender p (Some col) Desc) as (-> & -> & _). now split.
  - intros col p cd Hcd.
    assert (Hshow : forall sortCol dir,
              crosstabData (renderCrosstabTable (withSort sortCol dir p)) = Some cd
              /\ results (renderCrosstabTable (withSort sortCol dir p))
                 = Rendered (renderTable cd
                     (crosstabSortCol (renderCrosstabTable (withSort sortCol dir p)))
                     (crosstabSortDir (renderCrosstabTable (withSort sortCol dir p))))).
    { intros sortCol dir. unfold renderCrosstabTable.
      cbn [withSort crosstabData]. rewrite Hcd. now split. }
    unfold sortClicked.
    destruct (crosstabSortCol p) as [current|];
      [destruct (current =? col)|]; apply Hshow.
  - intros col w. cbn [step]. now destruct (results (page w)).
Qed.

Lemma sort_state_transitions_witness :
  let p := fst (updateCrosstab (reference Sample.complete) Sample.roleByRegion) in
  crosstabSortCol p = Some "_total"
  /\ crosstabSortDir (sortClicked "_total" p) = Asc
  /\ crosstabSortCol (sortClicked "Asia" p) = Some "Asia"
  /\ crosstabSortDir (sortClicked "Asia" (sortClicked "_total" p)) = Desc
  /\ crosstabData (sortClicked "Asia" p) = crosstabData p.
Proof.
  destruct sort_state_transitions as (_ & Hsame & Hother & Hdata & _).
  set (p := fst (updateCrosstab (reference Sample.complete) Sample.roleByRegion)).
  assert (Hcol : crosstabSortCol p = Some "_total") by (vm_compute; reflexivity).
  split; [exact Hcol|].
  split; [now destruct (Hsame "_total" p Hcol) as [_ ->]|].
  split; [apply (Hother "Asia" p); rewrite Hcol; discriminate|].
  split.
  - apply (Hother "Asia" (sortClicked "_total" p)).
    destruct (Hsame "_total" p Hcol) as [-> _]. discriminate.
  - destruct (crosstabData p) as [cd|] eqn:Hcd.
    + now destruct (Hdata "Asia" p cd Hcd) as [-> _].
    + vm_compute in Hcd. discriminate.
Defined.

(** C8. With the row dimension equal to the column dimension, a call
    sends no query and shows the placeholder; it ends at once, and the page
    is otherwise as before, under any engine.  In a world, nothing is sent
    or left in flight by the call. *)
Theorem same_dimension_placeholder (engine : Engine.t) (p : Page) (w : World) :
  rowsSelect p = colsSelect p ->
  updateCrosstab engine p = (withResults SelectDifferentDimensions p, [])
  /\ start p = (withResults SelectDifferentDimensions p, Finished)
  /\ sent (call p w) = sent w
  /\ inflight (call p w) = inflight w
  /\ page (call p w) = withResults SelectDifferentDimensions p.
Proof.
  intros Hsame. apply String.eqb_eq in Hsame.
  unfold call, updateCrosstab, start. rewrite Hsame. repeat split.
Qed.

Lemma same_dimension_placeholder_witness :
  let p := page (step Sample.idle (RowsChanged "region")) in
  results p = SelectDifferentDimensions
  /\ crosstabData p = crosstabData Sample.roleByRegion
  /\ sent (step Sample.idle (RowsChanged "region")) = [].
Proof.
  set (p0 := withSelects "region" "region" "count" Sample.noFilters Sample.roleByRegion).
  destruct (same_dimension_placeholder (reference Sample.complete) p0 Sample.idle)
    as (_ & _ & Hsent & _ & Hpage); [reflexivity|].
  change (step Sample.idle (RowsChanged "region")) with (call p0 Sample.idle).
  rewrite Hpage, Hsent. repeat split.
Defined.

Lemma pending_app id l l' :
  pending id (l ++ l') =
  match pending id l with
  | Some progress => Some progress
  | None => pending id l'
  end.
Proof.
  induction l as [|[id' progress] l IH]; [reflexivity|]. cbn [app pending].
  now destruct (Nat.eqb id' id).
Qed.

Lemma pending_settle id id' l :
  id <> id' -> pending id (settle id' l) = pending id l.
Proof.
  intros Hne. unfold settle. induction l as [|[id0 progress] l IH]; [reflexivity|].
  cbn [filter fst pending].
  destruct (Nat.eqb_spec id0 id') as [->|Hne0]; cbn [negb].
  - rewrite IH. apply Nat.eqb_neq in Hne. rewrite Nat.eqb_sym in Hne.
    now rewrite Hne.
  - cbn [pending]. now rewrite IH.
Qed.

(** An invocation stays suspended, as it is, through every event that is
    not an answer to it: later calls, answers to others, clicks. *)
Lemma pending_kept w e id progress :
  pending id (inflight w) = Some progress ->
  answered e <> Some id ->
  pending id (inflight (step w e)) = Some progress.
Proof.
  intros Hp He.
  assert (Hcall : forall p, pending id (inflight (call p w)) = Some progress).
  { intros p. unfold call. destruct (start p) as [p' [|i|i data]];
      cbn [inflight]; rewrite ?pending_app, Hp; reflexivity. }
  destruct e as [v|v|v|fs| |id' answer|id' rowAnswer colAnswer|col];
    cbn [step]; try apply Hcall; try exact Hp.
  - assert (Hne : id <> id') by (cbn in He; congruence).
    destruct (pending id' (inflight w)) as [[|i|i data]|]; try exact Hp.
    destruct (onDetail i answer (page w)) as [p' [|i'|i' data']];
      cbn [inflight]; rewrite ?pending_app, pending_settle, Hp by assumption;
      reflexivity.
  - assert (Hne : id <> id') by (cbn in He; congruence).
    destruct (pending id' (inflight w)) as [[|i|i data]|]; try exact Hp.
    cbn [inflight]. now rewrite pending_settle.
  - destruct (results (page w)); exact Hp.
Qed.

Lemma pending_kept_run w events id progress :
  pending id (inflight w) = Some progress ->
  Forall (fun e => answered e <> Some id) events ->
  pending id (inflight (run w events)) = Some progress.
Proof.
  intros Hp Hev. revert w Hp.
  induction Hev as [|e events He Hev IH]; intros w Hp; [exact Hp|].
  cbn [run fold_left]. apply IH. now apply pending_kept.
Qed.

Lemma pending_settled id l : pending id (settle id l) = None.
Proof.
  unfold settle. induction l as [|[id0 progress] l IH]; [reflexivity|].
  cbn [filter fst]. destruct (Nat.eqb_spec id0 id) as [->|Hne]; cbn [negb].
  - exact IH.
  - cbn [pending]. apply Nat.eqb_neq in Hne. now rewrite Hne.
Qed.

(** C5, as the code has it.  There is no generation tag and no answer is
    dropped.  An invocation suspended at either await keeps waiting through
    whatever happens meanwhile, later calls included, and its answer is
    processed when it arrives.  The answer to the crosstab query: a failure
    shows its message, no rows show the no-data placeholder, and rows send
    the two totals queries and suspend the invocation again.  The answer to
    the totals queries: two results are assembled, stored and rendered under
    the default sort, and a failure shows the message of a failed query and
    leaves the stored matrix alone.  Whenever the container is written, the
    invocation that wrote it is this one, whatever the number of calls made
    since. *)
Theorem answer_applied_on_arrival (w : World) (id : nat) (meanwhile : list Event) :
  Forall (fun e => answered e <> Some id) meanwhile ->
  let w1 := run w meanwhile in
  (forall i answer,
     pending id (inflight w) = Some (AwaitDetail i) ->
     let w' := step w1 (DetailAnswered id answer) in
     calls w' = calls w1
     /\ crosstabData (page w') = crosstabData (page w1)
     /\ match answer with
        | Failure message =>
            results (page w') = ErrorText message
            /\ lastWriter w' = Some id
            /\ pending id (inflight w') = None
            /\ sent w' = sent w1
        | Rows [] =>
            results (page w') = NoDataMatches
            /\ lastWriter w' = Some id
            /\ pending id (inflight w') = None
            /\ sent w' = sent w1
        | Rows data =>
            page w' = page w1
            /\ lastWriter w' = lastWriter w1
            /\ pending id (inflight w') = Some (AwaitTotals i data)
            /\ sent w' = (sent w1 ++ [(id, QTotals (rowTotalsQuery i));
                                      (id, QTotals (colTotalsQuery i))])%list
        end)
  /\ (forall i data rowAnswer colAnswer,
        pending id (inflight w) = Some (AwaitTotals i data) ->
        let w' := step w1 (TotalsAnswered id rowAnswer colAnswer) in
        calls w' = calls w1
        /\ lastWriter w' = Some id
        /\ pending id (inflight w') = None
        /\ sent w' = sent w1
        /\ match rowAnswer, colAnswer with
           | Rows rowTotalsResult, Rows colTotalsResult =>
               let cd := assemble i data rowTotalsResult colTotalsResult in
               crosstabData (page w') = Some cd
               /\ results (page w') = Rendered (renderTable cd (Some "_total") Desc)
           | _, _ =>
               crosstabData (page w') = crosstabData (page w1)
               /\ exists message,
                    (rowAnswer = Failure message \/ colAnswer = Failure message)
                    /\ results (page w') = ErrorText message
           end).
Proof.
  intros Hmeanwhile w1. split.
  - intros i answer Hpending.
    pose proof (pending_kept_run w meanwhile id _ Hpending Hmeanwhile) as Hkept.
    fold w1 in Hkept. cbn [step]. rewrite Hkept.
    destruct answer as [[|d data]|message]; cbn [onDetail List.length Nat.eqb];
      cbn [page calls lastWriter inflight sent withResults crosstabData results].
    + rewrite pending_settled. repeat split.
    + rewrite pending_app, pending_settled. cbn [pending].
      rewrite Nat.eqb_refl. repeat split.
    + rewrite pending_settled. repeat split.
  - intros i data rowAnswer colAnswer Hpending.
    pose proof (pending_kept_run w meanwhile id _ Hpending Hmeanwhile) as Hkept.
    fold w1 in Hkept. cbn [step]. rewrite Hkept.
    cbn [page calls lastWriter inflight sent]. rewrite pending_settled.
    split; [reflexivity|]. split; [reflexivity|]. split; [reflexivity|].
    split; [reflexivity|].
    destruct rowAnswer as [rowTotalsResult|rowMessage];
      [destruct colAnswer as [colTotalsResult|colMessage]|]; cbn [onTotals].
    + split; reflexivity.
    + split; [reflexivity|]. exists colMessage. split; [now right|reflexivity].
    + split; [reflexivity|]. exists rowMessage. split; [now left|reflexivity].
Qed.

(** C5, refuted as stated: the totals of the first call arrive after a
    second call has shown the placeholder, and the table of the first call
    replaces it. *)
Lemma stale_answer_rendered :
  let w := run Sample.idle Sample.overtaken in
  inflight w = []
  /\ calls w = 2
  /\ lastWriter w = Some 0
  /\ rowsSelect (page w) = colsSelect (page w)
  /\ results (page w)
     = Rendered (renderTable
                   (assembleOver Sample.complete (invocationOf Sample.roleByRegion))
                   (Some "_total") Desc)
  /\ ~ ShowsLatestCall w.
Proof.
  repeat split; try (vm_compute; reflexivity).
  intros H. specialize (H eq_refl 0 eq_refl). discriminate.
Qed.

Lemma answer_applied_on_arrival_witness :
  let v := step Sample.idle Called in
  let v' := step (run v Sample.secondCall) (DetailAnswered 0 (Failure "timeout")) in
  let w := run Sample.idle Sample.firstCall in
  let w' := step (run w Sample.secondCall) Sample.firstTotals in
  Forall (fun e => answered e <> Some 0) Sample.secondCall
  /\ calls (run v Sample.secondCall) = 2
  /\ results (page (run v Sample.secondCall)) = SelectDifferentDimensions
  /\ results (page v') = ErrorText "timeout"
  /\ lastWriter v' = Some 0
  /\ calls (run w Sample.secondCall) = 2
  /\ lastWriter (run w Sample.secondCall) = Some 1
  /\ lastWriter w' = Some 0
  /\ crosstabData (page w')
     = Some (assembleOver Sample.complete (invocationOf Sample.roleByRegion)).
Proof.
  set (v := step Sample.idle Called).
  set (w := run Sample.idle Sample.firstCall).
  assert (Hmeanwhile : Forall (fun e => answered e <> Some 0) Sample.secondCall)
    by (repeat constructor; discriminate).
  destruct (answer_applied_on_arrival v 0 Sample.secondCall Hmeanwhile)
    as [Hdetail _].
  destruct (Hdetail (invocationOf Sample.roleByRegion) (Failure "timeout") eq_refl)
    as (_ & _ & Hshown & Hwriter & _).
  destruct (answer_applied_on_arrival w 0 Sample.secondCall Hmeanwhile)
    as [_ Htotals].
  destruct (Htotals (invocationOf Sample.roleByRegion)
              (referenceDetail Sample.complete
                 (detailQuery (invocationOf Sample.roleByRegion)))
              (Rows (referenceTotals Sample.complete
                       (rowTotalsQuery (invocationOf Sample.roleByRegion))))
              (Rows (referenceTotals Sample.complete
                       (colTotalsQuery (invocationOf Sample.roleByRegion))))
              eq_refl)
    as (_ & Hwriter' & _ & _ & Hdata & _).
  split; [exact Hmeanwhile|].
  split; [vm_compute; reflexivity|].
  split; [vm_compute; reflexivity|].
  split; [exact Hshown|].
  split; [exact Hwriter|].
  split; [vm_compute; reflexivity|].
  split; [vm_compute; reflexivity|].
  split; [exact Hwriter' | exact Hdata].
Defined.

End StateFacts.

(** ** Heatmap shading *)

Section HeatmapFacts.
Import PrimFloat FloatAxioms SpecFloat Heatmap.
#[local] Set Warnings "-inexact-float".














End HeatmapFacts.

(** ** Text truncation *)

Section TextFacts.
Import Text.

Lemma truncateText_short (text : JsText) (maxLength : Z) :
  (Z.of_nat (List.length text) <= maxLength)%Z \/ text = [] ->
  truncateText text maxLength = text.
Proof.
  intros H. unfold truncateText.
  destruct H as [H| ->]; [|reflexivity].
  apply Z.leb_le in H. rewrite H. now rewrite orb_true_r.
Qed.

Lemma truncateText_long (text : JsText) (maxLength : Z) :
  (maxLength < Z.of_nat (List.length text))%Z -> text <> [] ->
  truncateText text maxLength
  = (firstn (Z.to_nat (maxLength - 1)) text ++ [ellipsis])%list
  /\ Z.of_nat (List.length (truncateText text maxLength)) = Z.max maxLength 1.
Proof.
  intros Hlong Htext. unfold truncateText, substringFrom0.
  destruct text as [|u text]; [congruence|]. cbn [List.length Nat.eqb orb] in *.
  destruct (Z.leb_spec (Z.of_nat (S (List.length text))) maxLength); [lia|].
  split; [reflexivity|].
  rewrite length_app, firstn_length_le by (cbn [List.length]; lia).
  cbn [List.length]. lia.
Qed.

(** X1. With a limit of at least one, the truncated text is never longer
    than the limit: a text within the limit is returned as it is, a longer
    one is cut to the limit less one and ends in the ellipsis. *)
Theorem truncateText_fits (text : JsText) (maxLength : Z) :
  (1 <= maxLength)%Z ->
  (Z.of_nat (List.length (truncateText text maxLength)) <= maxLength)%Z
  /\ ((Z.of_nat (List.length text) <= maxLength)%Z ->
      truncateText text maxLength = text)
  /\ ((maxLength < Z.of_nat (List.length text))%Z ->
      truncateText text maxLength
      = (firstn (Z.to_nat (maxLength - 1)) text ++ [ellipsis])%list
      /\ Z.of_nat (List.length (truncateText text maxLength)) = maxLength).
Proof.
  intros Hmax.
  assert (Hshort : (Z.of_nat (List.length text) <= maxLength)%Z ->
                   truncateText text maxLength = text)
    by (intros H; apply truncateText_short; now left).
  assert (Hlong : (maxLength < Z.of_nat (List.length text))%Z ->
                  truncateText text maxLength
                  = (firstn (Z.to_nat (maxLength - 1)) text ++ [ellipsis])%list
                  /\ Z.of_nat (List.length (truncateText text maxLength)) = maxLength).
  { intros H. destruct (truncateText_long text maxLength H) as [Heq Hlen].
    - intros ->. cbn in H. lia.
    - split; [exact Heq | lia]. }
  split; [|split; assumption].
  destruct (Z.le_gt_cases (Z.of_nat (List.length text)) maxLength) as [Hle|Hgt].
  - now rewrite Hshort.
  - destruct (Hlong Hgt) as [_ ->]. lia.
Qed.

Lemma truncateText_fits_witness :
  truncateText [72; 101; 108; 108; 111; 33]%N 4
  = [72; 101; 108; ellipsis]%N.
Proof.
  destruct (truncateText_fits [72; 101; 108; 108; 111; 33]%N 4) as (_ & _ & H);
    [lia|].
  destruct H as [H _]; [cbn; lia|]. exact H.
Defined.

(** X2. Truncating a truncated text to the same limit changes nothing,
    whatever the limit; with a limit below one, every non-empty text
    becomes the ellipsis alone, one unit long. *)
Theorem truncateText_idempotent (text : JsText) (maxLength : Z) :
  truncateText (truncateText text maxLength) maxLength = truncateText text maxLength
  /\ ((maxLength < 1)%Z -> text <> [] -> truncateText text maxLength = [ellipsis]).
Proof.
  assert (Hcut : (maxLength < 1)%Z -> text <> [] ->
                 truncateText text maxLength = [ellipsis]).
  { intros Hmax Htext.
    destruct (truncateText_long text maxLength) as [-> _]; [|assumption|].
    - destruct text; [congruence|]. cbn [List.length]. lia.
    - replace (Z.to_nat (maxLength - 1)) with 0 by lia. reflexivity. }
  split; [|exact Hcut].
  destruct (Z.le_gt_cases (Z.of_nat (List.length text)) maxLength) as [Hle|Hgt].
  - rewrite (truncateText_short text maxLength) by (now left).
    apply truncateText_short. now left.
  - destruct text as [|u text]; [reflexivity|].
    destruct (truncateText_long (u :: text) maxLength Hgt) as [Heq Hlen];
      [discriminate|].
    destruct (Z.le_gt_cases 1 maxLength) as [Hmax|Hmax].
    + apply truncateText_short. left. lia.
    + rewrite Hcut by (lia || discriminate).
      destruct (truncateText_long [ellipsis] maxLength) as [-> _];
        [cbn; lia | discriminate |].
      replace (Z.to_nat (maxLength - 1)) with 0 by lia. reflexivity.
Qed.

End TextFacts.

(** ** CSV export *)

Section CsvFacts.
Import JsString Html Csv.

Lemma parse_shape_upto (n : nat) :
  forall s inQuotes, String.length s <= n ->
  exists field fields rest, parse inQuotes s = (field :: fields) :: rest.
Proof.
  assert (Hadd : forall a records,
            exists field fields rest, addChar a records = (field :: fields) :: rest).
  { intros a [|[|field fields] rest]; cbn; eauto. }
  assert (Hfield : forall records,
            exists field fields rest, newField records = (field :: fields) :: rest).
  { intros [|record rest]; cbn; eauto. }
  assert (Hrecord : forall records,
            exists field fields rest, newRecord records = (field :: fields) :: rest).
  { intros records. unfold newRecord. eauto. }
  induction n as [|n IH]; intros s inQuotes Hlen.
  - destruct s; [cbn; eauto | cbn in Hlen; lia].
  - destruct s as [|a s]; [cbn; eauto|]. cbn [parse]. cbn in Hlen.
    destruct inQuotes.
    + destruct (Ascii.eqb a quot).
      * destruct s as [|b s']; [eauto|].
        destruct (Ascii.eqb b quot); [apply Hadd|apply IH; lia].
      * apply Hadd.
    + destruct (Ascii.eqb a comma); [apply Hfield|].
      destruct (Ascii.eqb a newline); [apply Hrecord|].
      destruct (Ascii.eqb a carriageReturn).
      * destruct s as [|b s']; [apply Hrecord|].
        destruct (Ascii.eqb b newline); apply Hrecord.
      * destruct (Ascii.eqb a quot); [apply IH; lia|apply Hadd].
Qed.

Lemma parse_shape inQuotes s :
  exists field fields rest, parse inQuotes s = (field :: fields) :: rest.
Proof. now apply (parse_shape_upto (String.length s)). Qed.

Lemma addString_empty inQuotes s :
  addString "" (parse inQuotes s) = parse inQuotes s.
Proof. now destruct (parse_shape inQuotes s) as (field & fields & rest & ->). Qed.

Lemma addChar_addString a str inQuotes s :
  addChar a (addString str (parse inQuotes s))
  = addString (String a str) (parse inQuotes s).
Proof. now destruct (parse_shape inQuotes s) as (field & fields & rest & ->). Qed.

(** Text without a comma, a quote or a line break is read as it is. *)
Lemma parse_unquoted str tail :
  occurs comma str = false -> occurs newline str = false ->
  occurs quot str = false -> occurs carriageReturn str = false ->
  parse false (str ++ tail) = addString str (parse false tail).
Proof.
  induction str as [|a str IH]; intros Hc Hn Hq Hr.
  - cbn [append]. symmetry. apply addString_empty.
  - cbn [occurs] in Hc, Hn, Hq, Hr.
    apply orb_false_iff in Hc as [Hac Hc]. apply orb_false_iff in Hn as [Han Hn].
    apply orb_false_iff in Hq as [Haq Hq]. apply orb_false_iff in Hr as [Har Hr].
    cbn [append parse]. rewrite Hac, Han, Haq, Har, IH by assumption.
    apply addChar_addString.
Qed.

(** A quoted field is read as the text it was written from. *)
Lemma parse_quoted str tail :
  (tail = "" \/ exists b rest, tail = String b rest /\ Ascii.eqb b quot = false) ->
  parse true (replaceAll quot (String quot (String quot "")) str ++ String quot tail)
  = addString str (parse false tail).
Proof.
  intros Htail. induction str as [|a str IH].
  - cbn [replaceAll append parse]. rewrite Ascii.eqb_refl.
    destruct Htail as [->|(b & rest & -> & Hb)].
    + reflexivity.
    + rewrite Hb. symmetry. apply addString_empty.
  - cbn [replaceAll]. destruct (Ascii.eqb a quot) eqn:Ha.
    + apply Ascii.eqb_eq in Ha. subst a.
      cbn [append parse]. rewrite !Ascii.eqb_refl, IH.
      apply addChar_addString.
    + cbn [append parse]. rewrite Ha, IH. apply addChar_addString.
Qed.

Lemma parse_field val tail :
  bareReturn val = false ->
  (tail = "" \/ exists b rest, tail = String b rest /\ Ascii.eqb b quot = false) ->
  parse false (csvField val ++ tail) = addString (cellText val) (parse false tail).
Proof.
  intros Hbare Htail. unfold bareReturn in Hbare. cbv zeta in Hbare.
  destruct val as [| |str]; cbn [csvField cellText] in *.
  - symmetry. apply addString_empty.
  - symmetry. apply addString_empty.
  - destruct (occurs comma str || occurs newline str || occurs quot str) eqn:Hq.
    + cbn [append]. rewrite append_assoc. cbn [append parse].
      change (Ascii.eqb quot comma) with false.
      change (Ascii.eqb quot newline) with false.
      change (Ascii.eqb quot carriageReturn) with false.
      rewrite Ascii.eqb_refl. now apply parse_quoted.
    + cbn [negb] in Hbare. rewrite andb_true_r in Hbare.
      apply orb_false_iff in Hq as [Hq Hquot].
      apply orb_false_iff in Hq as [Hcomma Hnewline].
      now apply parse_unquoted.
Qed.

(** A line of the export is read as one record: the texts of its cells. *)
Lemma parse_record (row : list JsValue) (tail : string) :
  row <> [] ->
  Forall (fun val => bareReturn val = false) row ->
  parse false (csvRecord row ++ String newline tail)
  = map cellText row :: parse false tail.
Proof.
  unfold csvRecord. induction row as [|val row IH]; [congruence|].
  intros _ Hrow. inversion Hrow as [|? ? Hval Hrest]; subst.
  destruct row as [|val' row].
  - cbn [map join].
    rewrite parse_field by (exact Hval || (right; eexists _, _; now split)).
    cbn [parse]. change (Ascii.eqb newline comma) with false.
    rewrite Ascii.eqb_refl. cbn [newRecord addString map].
    now rewrite append_empty_r.
  - change (map csvField (val :: val' :: row))
      with (csvField val :: csvField val' :: map csvField row).
    rewrite join_cons, !append_assoc.
    rewrite parse_field by (exact Hval || (right; eexists _, _; now split)).
    cbn [append parse]. change (Ascii.eqb "," comma) with true. cbv iota.
    change (csvField val' :: map csvField row) with (map csvField (val' :: row)).
    rewrite IH by (exact Hrest || discriminate).
    cbn [newField addString map]. now rewrite append_empty_r.
Qed.

Lemma exportCsv_lines (columns : list string) (rows : list (string -> JsValue)) :
  forall init,
  fold_left
    (fun csv row => csv ++ csvRecord (map row columns) ++ String newline "")
    rows init
  = init ++ fold_right
              (fun row text => csvRecord (map row columns) ++ String newline text)
              "" rows.
Proof.
  induction rows as [|row rows IH]; intros init.
  - cbn. now rewrite append_empty_r.
  - cbn [fold_left fold_right]. rewrite IH, !append_assoc. reflexivity.
Qed.

Lemma dropEmptyLast_app (records : list (list string)) :
  dropEmptyLast (records ++ [[""]]) = records.
Proof.
  induction records as [|record records IH]; [reflexivity|].
  cbn [app]. destruct records as [|record' records].
  - reflexivity.
  - cbn [app] in IH |- *. cbn [dropEmptyLast]. cbn [dropEmptyLast] in IH.
    now rewrite IH.
Qed.

Lemma plain_field (name : string) :
  plain name = true ->
  csvField (JsOther name) = name /\ bareReturn (JsOther name) = false.
Proof.
  unfold plain, bareReturn. cbn [csvField cellText]. rewrite negb_true_iff.
  intros Hplain. apply orb_false_iff in Hplain as [Hplain Hreturn].
  now rewrite Hplain, Hreturn.
Qed.

(** X3. The text of a CSV export reads back, with a reader that ends a
    record at a line feed or a carriage return outside quotes, as the
    column names and then, for each row, the texts of its cells: commas,
    line feeds and double quotes inside a cell survive, and [null] and
    [undefined] come back as the empty text.  The column names are written
    as they are, so they have to be plain; and no cell may hold a carriage
    return that the export leaves unquoted. *)
Theorem exportCsv_reads_back (columns : list string)
    (rows : list (string -> JsValue)) :
  columns <> [] ->
  Forall (fun name => plain name = true) columns ->
  Forall (fun row => Forall (fun name => bareReturn (row name) = false) columns) rows ->
  readCsv (exportCsv columns rows)
  = columns :: map (fun row => map (fun name => cellText (row name)) columns) rows.
Proof.
  intros Hcolumns Hplain Hrows. unfold readCsv, exportCsv.
  rewrite exportCsv_lines, append_assoc. cbn [append].
  assert (Hheader : join "," columns = csvRecord (map JsOther columns)).
  { unfold csvRecord. rewrite map_map. f_equal.
    rewrite <- (map_id columns) at 1. apply map_ext_in.
    intros name Hin. rewrite Forall_forall in Hplain.
    symmetry. now apply plain_field, Hplain. }
  rewrite Hheader, parse_record.
  - rewrite map_map. cbn [cellText]. rewrite map_id.
    assert (Hbody :
      parse false
        (fold_right
           (fun row text => csvRecord (map row columns) ++ String newline text)
           "" rows)
      = (map (fun row => map (fun name => cellText (row name)) columns) rows
         ++ [[""]])%list).
    { induction Hrows as [|row rows Hrow Hrows IH]; [reflexivity|].
      cbn [fold_right map app]. rewrite parse_record.
      - now rewrite IH, map_map.
      - destruct columns; [congruence|discriminate].
      - now apply Forall_map. }
    rewrite Hbody.
    change (columns
            :: map (fun row => map (fun name => cellText (row name)) columns) rows
               ++ [[""]])%list
      with ((columns
             :: map (fun row => map (fun name => cellText (row name)) columns) rows)
            ++ [[""]])%list.
    apply dropEmptyLast_app.
  - destruct columns; [congruence|discriminate].
  - apply Forall_map. eapply Forall_impl; [|exact Hplain].
    intros name Hname. now apply plain_field.
Qed.

(** A cell with a carriage return and nothing else that asks for quotes is
    written bare, and the reader ends the record there. *)
Lemma bare_return_splits :
  let row := fun name : string =>
               if name =? "note" then JsOther (String carriageReturn "b") else JsOther "a" in
  exportCsv ["id"; "note"] [row]
  = "id,note" ++ String newline ("a," ++ String carriageReturn ("b" ++ String newline ""))
  /\ readCsv (exportCsv ["id"; "note"] [row]) = [["id"; "note"]; ["a"; ""]; ["b"]].
Proof. split; reflexivity. Qed.

Lemma exportCsv_reads_back_witness :
  let row := fun name : string =>
               if name =? "name" then JsOther "Doe, Jane"
               else if name =? "note"
                    then JsOther ("line one" ++ String newline
                                    (String quot ("two" ++ String quot "")))
                    else JsNull in
  readCsv (exportCsv ["name"; "team"; "note"] [row; row])
  = [ ["name"; "team"; "note"];
      ["Doe, Jane"; ""; "line one" ++ String newline (String quot ("two" ++ String quot ""))];
      ["Doe, Jane"; ""; "line one" ++ String newline (String quot ("two" ++ String quot ""))] ].
Proof.
  intros row.
  rewrite (exportCsv_reads_back ["name"; "team"; "note"] [row; row]).
  - reflexivity.
  - discriminate.
  - repeat constructor.
  - repeat constructor.
Defined.

End CsvFacts.

(** ** Responses pagination *)

Section PagerFacts.
Import Pager.
Local Open Scope Z_scope.

Lemma step_inRange st e : inRange st -> inRange (step st e).
Proof.
  unfold inRange, offset, responsesPerPage. intros [Hpos Hin].
  destruct e as [| | |count]; cbn [step].
  - destruct (Z.ltb_spec 0 (responsesPage st)); cbn; lia.
  - unfold responsesPerPage.
    destruct (Z.ltb_spec ((responsesPage st + 1) * 25) (responsesTotalCount st));
      cbn; lia.
  - cbn. lia.
  - cbn [responsesPage responsesTotalCount]. unfold responsesPerPage.
    destruct (Z.leb_spec count (responsesPage st * 25)); lia.
Qed.

(** X4. Whatever the order of clicks on Previous and Next, resets to the
    first page and answers of the count query, the page number is never
    negative and the page is the first one or starts before the end of the
    counted rows: the OFFSET of the page query is 0 or below the count. *)
Theorem pager_stays_in_range (events : list Event) :
  let st := run initial events in
  0 <= responsesPage st
  /\ (responsesPage st = 0 \/ offset st < responsesTotalCount st).
Proof.
  cbv zeta. change (inRange (run initial events)).
  assert (H : forall st, inRange st -> inRange (run st events)).
  { induction events as [|e events IH]; intros st Hst; [exact Hst|].
    cbn [run fold_left]. apply IH. now apply step_inRange. }
  apply H. unfold inRange, initial. cbn. lia.
Qed.

(** X5. On a page that starts before the end of the data, the range shown
    is not empty, ends within the count and holds at most 25 rows; the Next
    button is disabled exactly when the range reaches the last row, and a
    click on it then changes nothing. *)
Theorem shown_range_bounds (st : State) :
  0 <= responsesPage st ->
  offset st < responsesTotalCount st ->
  1 <= startNum st <= endNum st
  /\ endNum st <= responsesTotalCount st
  /\ endNum st - startNum st < responsesPerPage
  /\ (nextDisabled st = true <-> endNum st = responsesTotalCount st)
  /\ (nextDisabled st = true -> step st NextClicked = st).
Proof.
  unfold offset, startNum, endNum, nextDisabled, responsesPerPage.
  intros Hpos Hin.
  pose proof (Z.min_spec ((responsesPage st + 1) * 25) (responsesTotalCount st))
    as Hmin.
  split; [lia|]. split; [lia|]. split; [lia|]. split; [split|].
  - intros H. apply Z.leb_le in H. lia.
  - intros H. apply Z.leb_le. lia.
  - intros H. apply Z.leb_le in H. cbn [step]. unfold responsesPerPage.
    destruct (Z.ltb_spec ((responsesPage st + 1) * 25) (responsesTotalCount st));
      [lia | reflexivity].
Qed.

Lemma shown_range_bounds_witness :
  let st := run initial [CountAnswered 60; NextClicked; NextClicked; NextClicked] in
  responsesPage st = 2 /\ startNum st = 51 /\ endNum st = 60
  /\ nextDisabled st = true.
Proof.
  set (st := run initial [CountAnswered 60; NextClicked; NextClicked; NextClicked]).
  destruct (shown_range_bounds st) as (_ & _ & _ & Hnext & _);
    [vm_compute; discriminate | vm_compute; reflexivity |].
  split; [vm_compute; reflexivity|].
  split; [vm_compute; reflexivity|].
  split; [vm_compute; reflexivity|].
  apply Hnext. vm_compute. reflexivity.
Defined.

(** X6. While the count stays the same, Previous undoes Next and Next
    undoes Previous, whenever the first of the two moved the page. *)
Theorem prev_next_inverse (st : State) :
  0 <= responsesPage st ->
  (responsesPage st = 0 \/ offset st < responsesTotalCount st) ->
  (step st NextClicked <> st -> step (step st NextClicked) PrevClicked = st)
  /\ (step st PrevClicked <> st -> step (step st PrevClicked) NextClicked = st).
Proof.
  unfold offset, responsesPerPage. intros Hpos Hin.
  destruct st as [page total]. cbn [responsesPage responsesTotalCount] in *.
  split; intros Hmoved; cbn [step responsesPage responsesTotalCount] in *;
    unfold responsesPerPage in *.
  - destruct (Z.ltb_spec ((page + 1) * 25) total); [|congruence].
    cbn [step responsesPage responsesTotalCount].
    destruct (Z.ltb_spec 0 (page + 1)); [|lia].
    f_equal. lia.
  - destruct (Z.ltb_spec 0 page); [|congruence].
    cbn [step responsesPage responsesTotalCount]. unfold responsesPerPage.
    replace (page - 1 + 1) with page by lia.
    destruct (Z.ltb_spec (page * 25) total); [|lia].
    reflexivity.
Qed.

Lemma prev_next_inverse_witness :
  let st := run initial [CountAnswered 60; NextClicked] in
  step (step st NextClicked) PrevClicked = st
  /\ step (step st PrevClicked) NextClicked = st.
Proof.
  set (st := run initial [CountAnswered 60; NextClicked]).
  destruct (prev_next_inverse st) as [Hnext Hprev];
    [vm_compute; discriminate | right; vm_compute; reflexivity |].
  split; [apply Hnext | apply Hprev]; vm_compute; discriminate.
Defined.

End PagerFacts.

(** ** SQL query history *)

Section SqlHistoryFacts.
Import SqlHistory.
Variable trim : string -> string.

Lemma saveSqlQuery_bounded history sql_ now duration_ :
  List.length history <= SQL_HISTORY_MAX ->
  List.length (saveSqlQuery trim history sql_ now duration_) <= SQL_HISTORY_MAX.
Proof.
  intros Hlen. unfold saveSqlQuery.
  destruct history as [|recent history].
  - cbn. unfold SQL_HISTORY_MAX. lia.
  - destruct (sql recent =? sql_); [exact Hlen|].
    rewrite length_firstn. apply Nat.le_min_l.
Qed.

(** X7. Starting from an empty history, however many queries are saved,
    the stored list never holds more than 20 entries. *)
Theorem sql_history_capped (saves : list (string * string * string)) :
  List.length
    (fold_left (fun history '(sql_, now, duration_) =>
                  saveSqlQuery trim history sql_ now duration_)
               saves [])
  <= SQL_HISTORY_MAX.
Proof.
  assert (H : forall history, List.length history <= SQL_HISTORY_MAX ->
              List.length
                (fold_left (fun history '(sql_, now, duration_) =>
                              saveSqlQuery trim history sql_ now duration_)
                           saves history)
              <= SQL_HISTORY_MAX).
  { induction saves as [|[[sql_ now] duration_] saves IH]; intros history Hlen;
      [exact Hlen|].
    cbn [fold_left]. apply IH. now apply saveSqlQuery_bounded. }
  apply H. cbn. lia.
Qed.

(** X8. A query run from the editor goes to the front of the history with
    the older entries behind it in their order, cut to 20; run again right
    away, it is not stored a second time. *)
Theorem sql_history_latest_first (history : list Entry)
    (text now duration_ now' duration' : string) :
  trim (trim text) = trim text ->
  let saved := saveFromEditor trim history text now duration_ in
  (match history with
   | recent :: _ =>
       if sql recent =? trim text then saved = history
       else saved = firstn SQL_HISTORY_MAX
                      ({| sql := trim text; time := now; duration := duration_ |}
                       :: history)
   | [] => saved = [{| sql := trim text; time := now; duration := duration_ |}]
   end)
  /\ (exists recent rest, saved = recent :: rest /\ sql recent = trim text)
  /\ saveFromEditor trim saved text now' duration' = saved.
Proof.
  intros Hidem saved.
  assert (Hhead : exists recent rest, saved = recent :: rest /\ sql recent = trim text).
  { unfold saved, saveFromEditor, saveSqlQuery.
    destruct history as [|recent history].
    - cbn. rewrite Hidem. eauto.
    - destruct (String.eqb_spec (sql recent) (trim text)) as [Heq|_].
      + eauto.
      + cbn. rewrite Hidem. eauto. }
  split; [|split; [exact Hhead|]].
  - unfold saved, saveFromEditor, saveSqlQuery.
    destruct history as [|recent history]; [cbn; now rewrite Hidem|].
    destruct (sql recent =? trim text); [reflexivity|]. now rewrite Hidem.
  - destruct Hhead as (recent & rest & -> & Hsql).
    unfold saveFromEditor, saveSqlQuery. now rewrite Hsql, String.eqb_refl.
Qed.

End SqlHistoryFacts.

Lemma sql_history_latest_first_witness :
  let saved :=
    SqlHistory.saveFromEditor Engine.trim [] "  SELECT 1  " "t1" "0.4" in
  saved = [{| SqlHistory.sql := "SELECT 1"; SqlHistory.time := "t1";
              SqlHistory.duration := "0.4" |}]
  /\ SqlHistory.saveFromEditor Engine.trim saved "  SELECT 1  " "t2" "0.3" = saved.
Proof.
  destruct (sql_history_latest_first Engine.trim [] "  SELECT 1  " "t1" "0.4" "t2" "0.3")
    as (Hsaved & _ & Hagain); [reflexivity|].
  split; [exact Hsaved | exact Hagain].
Defined.

(** ** Shareable and stored filter state *)

Section PersistFacts.
Import JsString Filters Persist.

Lemma fold_left_pointwise {X Y : Type} (f g : X -> Y -> X) (l : list Y) (x : X) :
  (forall a b, f a b = g a b) -> fold_left f l x = fold_left g l x.
Proof.
  intros Hfg. revert x. induction l as [|b l IH]; intros x; [reflexivity|].
  cbn [fold_left]. now rewrite Hfg, IH.
Qed.

Lemma writeLoop_other sel key config acc k :
  ~ In k (map key config) ->
  Assoc.get (writeLoop sel key config acc) k = Assoc.get acc k.
Proof.
  unfold writeLoop. revert acc.
  induction config as [|e config IH]; intros acc Hk; [reflexivity|].
  cbn [fold_left]. rewrite IH by (intros H; apply Hk; now right).
  destruct (truthy (sel (fst e))); [|reflexivity].
  rewrite get_set. destruct (String.eqb_spec (key e) k) as [Heq|]; [|reflexivity].
  exfalso. apply Hk. now left.
Qed.

Lemma writeLoop_get sel key config acc e :
  NoDup (map key config) -> In e config ->
  Assoc.get (writeLoop sel key config acc) (key e)
  = if truthy (sel (fst e)) then Some (sel (fst e)) else Assoc.get acc (key e).
Proof.
  revert acc. induction config as [|e0 config IH]; intros acc Hnd Hin;
    [contradiction|].
  cbn [map] in Hnd. inversion Hnd as [|? ? Hfresh Hnd']; subst.
  change (writeLoop sel key (e0 :: config) acc)
    with (writeLoop sel key config
            (if truthy (sel (fst e0))
             then Assoc.set acc (key e0) (sel (fst e0)) else acc)).
  destruct Hin as [->|Hin].
  - rewrite writeLoop_other by assumption.
    destruct (truthy (sel (fst e))); [|reflexivity].
    now rewrite get_set, String.eqb_refl.
  - rewrite IH by assumption.
    destruct (truthy (sel (fst e))); [reflexivity|].
    destruct (truthy (sel (fst e0))); [|reflexivity].
    rewrite get_set. destruct (String.eqb_spec (key e0) (key e)) as [Heq|];
      [|reflexivity].
    exfalso. apply Hfresh. rewrite Heq. now apply in_map.
Qed.

Lemma readLoop_other lookup key options config sel id :
  ~ In id (map fst config) ->
  readLoop lookup key options config sel id = sel id.
Proof.
  unfold readLoop. revert sel.
  induction config as [|e config IH]; intros sel Hid; [reflexivity|].
  cbn [fold_left]. rewrite IH by (intros H; apply Hid; now right).
  destruct (lookup (key e)) as [value|]; [|reflexivity].
  destruct (truthy value && existsb (String.eqb value) (options (fst e)));
    [|reflexivity].
  destruct (String.eqb_spec id (fst e)) as [->|]; [|reflexivity].
  exfalso. apply Hid. now left.
Qed.

Lemma readLoop_get lookup key options config sel e :
  NoDup (map fst config) -> In e config ->
  readLoop lookup key options config sel (fst e)
  = match lookup (key e) with
    | Some value =>
        if truthy value && existsb (String.eqb value) (options (fst e))
        then value else sel (fst e)
    | None => sel (fst e)
    end.
Proof.
  revert sel. induction config as [|e0 config IH]; intros sel Hnd Hin;
    [contradiction|].
  cbn [map] in Hnd. inversion Hnd as [|? ? Hfresh Hnd']; subst.
  change (readLoop lookup key options (e0 :: config) sel)
    with (readLoop lookup key options config
            (match lookup (key e0) with
             | Some value =>
                 if truthy value && existsb (String.eqb value) (options (fst e0))
                 then fun id => if id =? fst e0 then value else sel id
                 else sel
             | None => sel
             end)).
  destruct Hin as [->|Hin].
  - rewrite readLoop_other by assumption.
    destruct (lookup (key e)) as [value|]; [|reflexivity].
    destruct (truthy value && existsb (String.eqb value) (options (fst e)));
      [|reflexivity].
    now rewrite String.eqb_refl.
  - rewrite IH by assumption.
    destruct (lookup (key e)) as [value|].
    + destruct (truthy value && existsb (String.eqb value) (options (fst e)));
        [reflexivity|].
      destruct (lookup (key e0)) as [value0|]; [|reflexivity].
      destruct (truthy value0 && existsb (String.eqb value0) (options (fst e0)));
        [|reflexivity].
      destruct (String.eqb_spec (fst e) (fst e0)) as [Heq|]; [|reflexivity].
      exfalso. apply Hfresh. rewrite <- Heq. now apply in_map.
    + destruct (lookup (key e0)) as [value0|]; [|reflexivity].
      destruct (truthy value0 && existsb (String.eqb value0) (options (fst e0)));
        [|reflexivity].
      destruct (String.eqb_spec (fst e) (fst e0)) as [Heq|]; [|reflexivity].
      exfalso. apply Hfresh. rewrite <- Heq. now apply in_map.
Qed.

(** Written and read back under the same key, a sidebar value that its
    dropdown offers comes back; an empty one stays empty. *)
Lemma write_read sel key options config e :
  NoDup (map key config) -> NoDup (map fst config) -> In e config ->
  (sel (fst e) <> "" -> In (sel (fst e)) (options (fst e))) ->
  readLoop (Assoc.get (writeLoop sel key config [])) key options config
           (fun _ => "") (fst e)
  = sel (fst e).
Proof.
  intros Hkeys Hids Hin Hoffered.
  rewrite readLoop_get, writeLoop_get by assumption.
  unfold truthy in *. destruct (String.eqb_spec (sel (fst e)) "") as [Hempty|Hvalue];
    cbn [negb Assoc.get].
  - now rewrite Hempty.
  - destruct (String.eqb_spec (sel (fst e)) ""); [contradiction|]. cbn [negb andb].
    assert (Hex : existsb (String.eqb (sel (fst e))) (options (fst e)) = true).
    { apply existsb_exists. exists (sel (fst e)). split; [auto|].
      apply String.eqb_refl. }
    now rewrite Hex.
Qed.

Lemma filterConfig_ids : NoDup (map fst filterConfig).
Proof. cbn. repeat constructor; cbn; intuition discriminate. Qed.

Lemma filterConfig_columns : NoDup (map snd filterConfig).
Proof. cbn. repeat constructor; cbn; intuition discriminate. Qed.

Lemma restoreChartFilters_fresh (chartFilters filters : Assoc.t string) :
  NoDup (Assoc.keys chartFilters ++ map fst filters) ->
  restoreChartFilters chartFilters filters = (chartFilters ++ filters)%list.
Proof.
  intros Hnd. rewrite <- fold_set_fresh by exact Hnd.
  unfold restoreChartFilters. apply fold_left_pointwise. now intros o [col val].
Qed.

Lemma flat_map_agree {X Y : Type} (f g : X -> list Y) (l : list X) :
  (forall x, In x l -> f x = g x) -> flat_map f l = flat_map g l.
Proof.
  induction l as [|x l IH]; intros H; [reflexivity|]. cbn [flat_map].
  rewrite (H x) by now left. rewrite IH; [reflexivity|].
  intros y Hy. apply H. now right.
Qed.

(** The clause depends on the dropdowns of [filterConfig] and on the chart
    filters only. *)
Lemma getWhereClause_agree (fs fs' : FilterState) :
  (forall selectId column, In (selectId, column) filterConfig ->
     selectValue fs' selectId = selectValue fs selectId) ->
  chartFilters fs' = chartFilters fs ->
  getWhereClause fs' = getWhereClause fs.
Proof.
  intros Hsel Hchart. unfold getWhereClause, sidebarConditions, chartConditions.
  rewrite Hchart.
  rewrite (flat_map_agree
             (fun '(selectId, column) =>
                let value := selectValue fs' selectId in
                if truthy value then [equality column value] else [])
             (fun '(selectId, column) =>
                let value := selectValue fs selectId in
                if truthy value then [equality column value] else []));
    [reflexivity|].
  intros [selectId column] Hin. cbv zeta. now rewrite (Hsel selectId column Hin).
Qed.

Lemma url_params_loop (fs : FilterState) :
  params (updateUrlState fs) = writeLoop (selectValue fs) snd filterConfig [].
Proof.
  unfold updateUrlState, writeLoop. cbn [params].
  apply fold_left_pointwise. now intros ps [selectId column].
Qed.

Lemma restoreSidebar_loop param options sel :
  restoreSidebar param options sel = readLoop param snd options filterConfig sel.
Proof.
  unfold restoreSidebar, readLoop.
  apply fold_left_pointwise. now intros s [selectId column].
Qed.

Lemma stored_selects_loop (fs : FilterState) :
  selects (saveFiltersToLocalStorage fs)
  = writeLoop (selectValue fs) fst filterConfig [].
Proof.
  unfold saveFiltersToLocalStorage, writeLoop. cbn [selects].
  apply fold_left_pointwise. now intros ps [selectId column].
Qed.

Lemma chart_filters_back (chartFilters : Assoc.t string) :
  NoDup (Assoc.keys chartFilters) ->
  match (if Nat.eqb (List.length (Assoc.keys chartFilters)) 0
         then None else Some chartFilters) with
  | Some filters => restoreChartFilters [] filters
  | None => []
  end = chartFilters.
Proof.
  intros Hnd. destruct chartFilters as [|entry rest]; [reflexivity|].
  cbn [Assoc.keys map List.length Nat.eqb].
  now rewrite restoreChartFilters_fresh.
Qed.

(** X9. A page address written by [updateUrlState] and read by
    [restoreStateFromUrl] on a fresh page gives back the chart filters and
    every sidebar value that its dropdown offers, hence the same WHERE
    clause. *)
Theorem url_round_trip (fs : FilterState) (options : string -> list string) :
  NoDup (Assoc.keys (chartFilters fs)) ->
  (forall selectId column, In (selectId, column) filterConfig ->
     selectValue fs selectId <> "" ->
     In (selectValue fs selectId) (options selectId)) ->
  let fs' := restoreStateFromUrl (updateUrlState fs) options blank in
  chartFilters fs' = chartFilters fs
  /\ (forall selectId column, In (selectId, column) filterConfig ->
        selectValue fs' selectId = selectValue fs selectId)
  /\ getWhereClause fs' = getWhereClause fs.
Proof.
  intros Hnd Hoffered fs'.
  assert (Hchart : chartFilters fs' = chartFilters fs)
    by (apply (chart_filters_back (chartFilters fs) Hnd)).
  assert (Hsel : forall selectId column, In (selectId, column) filterConfig ->
                   selectValue fs' selectId = selectValue fs selectId).
  { intros selectId column Hin. unfold fs', restoreStateFromUrl.
    cbn [selectValue]. rewrite restoreSidebar_loop, url_params_loop.
    apply (write_read (selectValue fs) snd options filterConfig (selectId, column));
      [apply filterConfig_columns | apply filterConfig_ids | exact Hin |].
    apply (Hoffered selectId column Hin). }
  split; [exact Hchart|]. split; [exact Hsel|].
  now apply getWhereClause_agree.
Qed.

Lemma url_round_trip_witness :
  let fs := {| selectValue := fun id => if id =? "filter-region" then "Europe" else "";
               chartFilters := [("role", "Data Engineer"); ("industry", "Retail")] |} in
  let options := fun id => if id =? "filter-region" then ["Asia"; "Europe"] else [] in
  getWhereClause (restoreStateFromUrl (updateUrlState fs) options blank)
  = "WHERE region = 'Europe' AND role = 'Data Engineer' AND industry = 'Retail'".
Proof.
  intros fs options.
  destruct (url_round_trip fs options) as (_ & _ & ->).
  - cbn. repeat constructor; cbn; intuition discriminate.
  - intros selectId column Hin Hvalue. cbn in Hin.
    repeat (destruct Hin as [Hin|Hin];
            [inversion Hin; subst; cbn in *; tauto|]).
    contradiction.
  - reflexivity.
Defined.

(** X10. The object written by [saveFiltersToLocalStorage] and read by
    [restoreFiltersFromLocalStorage] on a fresh page without search
    parameters gives back the chart filters and every sidebar value that
    its dropdown offers, hence the same WHERE clause; with search
    parameters in the address nothing is restored. *)
Theorem storage_round_trip (fs : FilterState) (options : string -> list string) :
  NoDup (Assoc.keys (chartFilters fs)) ->
  (forall selectId column, In (selectId, column) filterConfig ->
     selectValue fs selectId <> "" ->
     In (selectValue fs selectId) (options selectId)) ->
  let saved := Some (saveFiltersToLocalStorage fs) in
  let fs' := restoreFiltersFromLocalStorage "" saved options blank in
  chartFilters fs' = chartFilters fs
  /\ (forall selectId column, In (selectId, column) filterConfig ->
        selectValue fs' selectId = selectValue fs selectId)
  /\ getWhereClause fs' = getWhereClause fs
  /\ (forall search page, search <> "" ->
        restoreFiltersFromLocalStorage search saved options page = page).
Proof.
  intros Hnd Hoffered saved fs'.
  assert (Hchart : chartFilters fs' = chartFilters fs)
    by (apply (chart_filters_back (chartFilters fs) Hnd)).
  assert (Hsel : forall selectId column, In (selectId, column) filterConfig ->
                   selectValue fs' selectId = selectValue fs selectId).
  { intros selectId column Hin. unfold fs', saved, restoreFiltersFromLocalStorage.
    cbn [truthy String.eqb negb selectValue].
    rewrite (fold_left_pointwise _
               (fun sel e =>
                  match Assoc.get (selects (saveFiltersToLocalStorage fs)) (fst e) with
                  | Some value =>
                      if truthy value && existsb (String.eqb value) (options (fst e))
                      then fun id => if id =? fst e then value else sel id
                      else sel
                  | None => sel
                  end))
      by (now intros s [id col]).
    rewrite stored_selects_loop.
    apply (write_read (selectValue fs) fst options filterConfig (selectId, column));
      [apply filterConfig_ids | apply filterConfig_ids | exact Hin |].
    apply (Hoffered selectId column Hin). }
  split; [exact Hchart|]. split; [exact Hsel|].
  split; [now apply getWhereClause_agree|].
  intros search page Hsearch. unfold restoreFiltersFromLocalStorage, truthy.
  apply String.eqb_neq in Hsearch. now rewrite Hsearch.
Qed.

Lemma storage_round_trip_witness :
  let fs := {| selectValue := fun id => if id =? "filter-role" then "Analyst" else "";
               chartFilters := [("region", "Asia")] |} in
  let options := fun id => if id =? "filter-role" then ["Analyst"; "Manager"] else [] in
  getWhereClause
    (restoreFiltersFromLocalStorage "" (Some (saveFiltersToLocalStorage fs))
                                    options blank)
  = "WHERE role = 'Analyst' AND region = 'Asia'".
Proof.
  intros fs options.
  destruct (storage_round_trip fs options) as (_ & _ & -> & _).
  - cbn. repeat constructor; cbn; intuition discriminate.
  - intros selectId column Hin Hvalue. cbn in Hin.
    repeat (destruct Hin as [Hin|Hin];
            [inversion Hin; subst; cbn in *; tauto|]).
    contradiction.
  - reflexivity.
Defined.

End PersistFacts.

(** ** Resetting, removing and searching *)

Section FilterOpsFacts.
Import JsString Filters Persist.

Lemma delete_all (keys_ : list string) (o : Assoc.t string) :
  incl (Assoc.keys o) keys_ ->
  fold_left (fun o key => Assoc.delete o key) keys_ o = [].
Proof.
  revert o. induction keys_ as [|k keys_ IH]; intros o Hincl.
  - destruct o as [|[k0 v0] o]; [reflexivity|].
    exfalso. apply (Hincl k0). now left.
  - cbn [fold_left]. apply IH. intros k' Hk'.
    unfold Assoc.keys, Assoc.delete in Hk'.
    apply in_map_iff in Hk' as ([k1 v1] & <- & Hin).
    apply filter_In in Hin as [Hin Hne]. cbn [fst] in *.
    apply negb_true_iff, String.eqb_neq in Hne.
    destruct (Hincl k1) as [Heq|Hrest]; [|congruence|assumption].
    unfold Assoc.keys. change k1 with (fst (k1, v1)). now apply in_map.
Qed.

Lemma blanked (ids : list string) (sel : string -> string) (id : string) :
  In id ids ->
  fold_left (fun sel selectId => fun id => if id =? selectId then "" else sel id)
            ids sel id = "".
Proof.
  assert (Hkeep : forall ids sel, sel id = "" ->
            fold_left (fun sel selectId => fun id => if id =? selectId then "" else sel id)
                      ids sel id = "").
  { clear. induction ids as [|i ids IH]; intros sel Hsel; [exact Hsel|].
    cbn [fold_left]. apply IH. now destruct (id =? i). }
  revert sel. induction ids as [|i ids IH]; intros sel Hin; [contradiction|].
  cbn [fold_left]. destruct Hin as [->|Hin]; [|now apply IH].
  apply Hkeep. now rewrite String.eqb_refl.
Qed.

Lemma flat_map_nil {X Y : Type} (f : X -> list Y) (l : list X) :
  (forall x, In x l -> f x = []) -> flat_map f l = [].
Proof.
  induction l as [|x l IH]; intros H; [reflexivity|]. cbn [flat_map].
  rewrite (H x) by now left. apply IH. intros y Hy. apply H. now right.
Qed.

(** The clause is the rendering of the active filters. *)
Lemma getWhereClause_form (fs : FilterState) :
  getWhereClause fs =
  match map (fun c => equality (fst c) (snd c)) (activeFilters fs) with
  | [] => ""
  | conditions => "WHERE " ++ join " AND " conditions
  end.
Proof.
  unfold getWhereClause. rewrite conditions_activeFilters.
  now destruct (map (fun c => equality (fst c) (snd c)) (activeFilters fs)).
Qed.

(** X11. After [resetFilters] no chart filter is left, every dropdown of
    [filterConfig] is empty, and the WHERE clause is empty, whatever the
    filters were. *)
Theorem resetFilters_clears (fs : FilterState) :
  chartFilters (resetFilters fs) = []
  /\ (forall selectId column, In (selectId, column) filterConfig ->
        selectValue (resetFilters fs) selectId = "")
  /\ activeFilters (resetFilters fs) = []
  /\ getWhereClause (resetFilters fs) = "".
Proof.
  assert (Hchart : chartFilters (resetFilters fs) = []).
  { cbn [resetFilters chartFilters]. unfold clearAllChartFilters.
    apply delete_all, incl_refl. }
  assert (Hsel : forall selectId column, In (selectId, column) filterConfig ->
                   selectValue (resetFilters fs) selectId = "").
  { intros selectId column Hin. cbn [resetFilters selectValue].
    apply blanked. unfold Assoc.keys. change selectId with (fst (selectId, column)).
    now apply in_map. }
  assert (Hactive : activeFilters (resetFilters fs) = []).
  { unfold activeFilters. rewrite Hchart, app_nil_r.
    apply flat_map_nil. intros [selectId column] Hin. cbv zeta.
    now rewrite (Hsel selectId column Hin). }
  repeat split; try assumption.
  now rewrite getWhereClause_form, Hactive.
Qed.

Lemma get_none_absent (o : Assoc.t string) (k : string) :
  Assoc.get o k = None -> ~ In k (Assoc.keys o).
Proof.
  induction o as [|[k0 v0] o IH]; cbn; [tauto|].
  destruct (String.eqb_spec k0 k); [discriminate|]. intros H [Heq|Hin]; [congruence|].
  now apply IH.
Qed.

Lemma delete_absent (o : Assoc.t string) (k : string) :
  ~ In k (Assoc.keys o) -> Assoc.delete o k = o.
Proof.
  unfold Assoc.delete.
  induction o as [|[k0 v0] o IH]; cbn [filter fst Assoc.keys map]; [reflexivity|].
  intros H. destruct (String.eqb_spec k0 k) as [Heq|Hne]; cbn [negb].
  - exfalso. apply H. now left.
  - rewrite IH; [reflexivity|]. intros Hin. apply H. now right.
Qed.

Lemma delete_appended (o : Assoc.t string) (k v : string) :
  ~ In k (Assoc.keys o) -> Assoc.delete (o ++ [(k, v)])%list k = o.
Proof.
  intros H. unfold Assoc.delete. rewrite filter_app. cbn [filter fst].
  rewrite String.eqb_refl. cbn [negb]. rewrite app_nil_r.
  now apply delete_absent.
Qed.

(** X12. For a dimension without a chart filter, a click on a bar followed
    by a click on its pill, or by a second click on the same bar, leaves
    the chart filters exactly as they were, order included, and with them
    the WHERE clause. *)
Theorem click_undone (chartFilters_ : Assoc.t string) (d v : string)
    (sel : string -> string) :
  Assoc.get chartFilters_ d = None ->
  removeChartFilter (addChartFilter chartFilters_ d v) d = chartFilters_
  /\ addChartFilter (addChartFilter chartFilters_ d v) d v = chartFilters_
  /\ getWhereClause {| selectValue := sel;
                       chartFilters := addChartFilter (addChartFilter chartFilters_ d v) d v |}
     = getWhereClause {| selectValue := sel; chartFilters := chartFilters_ |}.
Proof.
  intros Hnone. pose proof (get_none_absent _ _ Hnone) as Habsent.
  assert (Hadd : addChartFilter chartFilters_ d v = (chartFilters_ ++ [(d, v)])%list).
  { unfold addChartFilter. rewrite Hnone. now apply set_absent. }
  assert (Hremove : removeChartFilter (addChartFilter chartFilters_ d v) d
                    = chartFilters_).
  { unfold removeChartFilter. rewrite Hadd. now apply delete_appended. }
  assert (Htwice : addChartFilter (addChartFilter chartFilters_ d v) d v
                   = chartFilters_).
  { unfold addChartFilter at 1. rewrite Hadd at 1.
    assert (Hget : Assoc.get (chartFilters_ ++ [(d, v)])%list d = Some v).
    { rewrite <- (set_absent chartFilters_ d v Habsent).
      now rewrite get_set, String.eqb_refl. }
    rewrite Hget, String.eqb_refl, Hadd. now apply delete_appended. }
  split; [exact Hremove|]. split; [exact Htwice|]. now rewrite Htwice.
Qed.

Lemma click_undone_witness :
  let filters := [("region", "Asia")] in
  removeChartFilter (addChartFilter filters "role" "Analyst") "role" = filters
  /\ addChartFilter (addChartFilter filters "role" "Analyst") "role" "Analyst"
     = filters.
Proof.
  intros filters.
  destruct (click_undone filters "role" "Analyst" (fun _ => ""))
    as (Hremove & Htwice & _); [reflexivity|].
  now split.
Defined.

End FilterOpsFacts.

(** ** The clause as the engine reads it *)

Section ClauseFacts.
Import JsString Filters Sql Persist.

Lemma option_map_app_nil {X : Type} (x : option (list X)) :
  option_map (app []) x = x.
Proof. now destruct x. Qed.

Lemma option_map_app_app {X : Type} (a b : list X) (x : option (list X)) :
  option_map (app a) (option_map (app b) x) = option_map (app (a ++ b)%list) x.
Proof. destruct x; cbn; [now rewrite app_assoc|reflexivity]. Qed.

Lemma blank_char (a : ascii) :
  isBlank a = true ->
  isLetter a = false /\ isWordChar a = false /\ Ascii.eqb a "'" = false.
Proof.
  unfold isBlank. rewrite !orb_true_iff, !Ascii.eqb_eq.
  intros [[[->| ->]| ->]| ->]; repeat split.
Qed.

Lemma letter_char (a : ascii) :
  isLetter a = true -> isBlank a = false.
Proof.
  intros Hletter. destruct (isBlank a) eqn:Hblank; [|reflexivity].
  apply blank_char in Hblank as [Hblank _]. congruence.
Qed.

Lemma lex_blank (a : ascii) (tail : string) :
  isBlank a = true -> lex Between (String a tail) = lex Between tail.
Proof.
  intros Hblank. cbn [lex step]. unfold fresh. rewrite Hblank.
  apply option_map_app_nil.
Qed.

Lemma lex_word_end (w tail : string) :
  startsBlank tail = true ->
  lex (InWord w) tail = option_map (cons (Word w)) (lex Between tail).
Proof.
  destruct tail as [|a tail]; [reflexivity|]. cbn [startsBlank]. intros Hblank.
  rewrite (lex_blank a tail Hblank). cbn [lex step].
  destruct (blank_char a Hblank) as (_ & -> & _).
  unfold fresh. rewrite Hblank. cbn [option_map].
  now destruct (lex Between tail).
Qed.

Lemma lex_literal_end (body tail : string) :
  startsBlank tail = true ->
  lex (QuoteSeen body) tail = option_map (cons (Literal body)) (lex Between tail).
Proof.
  destruct tail as [|a tail]; [reflexivity|]. cbn [startsBlank]. intros Hblank.
  rewrite (lex_blank a tail Hblank). cbn [lex step].
  destruct (blank_char a Hblank) as (_ & _ & ->).
  unfold fresh. rewrite Hblank. cbn [option_map].
  now destruct (lex Between tail).
Qed.

Lemma lex_word_chars (rest : string) : forall w tail,
  allWordChars rest = true ->
  lex (InWord w) (rest ++ tail) = lex (InWord (w ++ rest)) tail.
Proof.
  induction rest as [|a rest IH]; intros w tail Hrest.
  - now rewrite append_empty_r.
  - cbn [allWordChars] in Hrest. apply andb_true_iff in Hrest as [Ha Hrest].
    cbn [append lex step]. rewrite Ha, option_map_app_nil, IH by exact Hrest.
    now rewrite append_assoc.
Qed.

(** A word followed by a blank or by the end is one token. *)
Lemma lex_word (w tail : string) :
  isWord w = true -> startsBlank tail = true ->
  lex Between (w ++ tail) = option_map (cons (Word w)) (lex Between tail).
Proof.
  destruct w as [|a rest]; [discriminate|]. cbn [isWord].
  intros Hw Htail. apply andb_true_iff in Hw as [Ha Hrest].
  cbn [append lex step]. unfold fresh.
  rewrite (letter_char a Ha), Ha, option_map_app_nil.
  rewrite lex_word_chars by exact Hrest. now apply lex_word_end.
Qed.

(** The body of a literal is read back as the value it was written from. *)
Lemma lex_literal_body (value : string) : forall body tail,
  lex (InLiteral body) (escapeQuotes value ++ tail)
  = lex (InLiteral (body ++ value)) tail.
Proof.
  unfold escapeQuotes.
  induction value as [|a value IH]; intros body tail.
  - now rewrite append_empty_r.
  - cbn [replaceAll]. destruct (Ascii.eqb_spec a "'") as [->|Hne].
    + cbn [append lex step Ascii.eqb Bool.eqb]. cbn [option_map].
      rewrite !option_map_app_nil, IH. now rewrite append_assoc.
    + apply Ascii.eqb_neq in Hne. cbn [append lex step]. rewrite Hne.
      rewrite option_map_app_nil, IH. now rewrite append_assoc.
Qed.

Lemma lex_equals (tail : string) :
  lex Between (String "=" tail) = option_map (cons Equals) (lex Between tail).
Proof. reflexivity. Qed.

Lemma lex_quote (tail : string) :
  lex Between (String "'" tail) = lex (InLiteral "") tail.
Proof. cbn [lex]. apply option_map_app_nil. Qed.

Lemma lex_percent (body tail : string) :
  lex (InLiteral body) (String "%" tail) = lex (InLiteral (body ++ "%")) tail.
Proof. cbn [lex]. apply option_map_app_nil. Qed.

Lemma lex_close_quote (body tail : string) :
  lex (InLiteral body) (String "'" tail) = lex (QuoteSeen body) tail.
Proof. cbn [lex]. apply option_map_app_nil. Qed.

Lemma lex_open (tail : string) :
  lex Between (String "(" tail) = option_map (cons OpenParen) (lex Between tail).
Proof. reflexivity. Qed.

Lemma lex_close (tail : string) :
  lex Between (String ")" tail) = option_map (cons CloseParen) (lex Between tail).
Proof. reflexivity. Qed.

(** [column = 'literal'] is read as the column, [=] and the value. *)
Lemma lex_equality (column value tail : string) :
  isWord column = true -> startsBlank tail = true ->
  lex Between (equality column value ++ tail)
  = option_map (app (conditionTokens (column, value))) (lex Between tail).
Proof.
  intros Hcolumn Htail. unfold equality. rewrite !append_assoc.
  rewrite lex_word by (exact Hcolumn || reflexivity).
  cbn [append]. rewrite lex_blank, lex_equals, lex_blank, lex_quote by reflexivity.
  rewrite lex_literal_body. cbn [append].
  rewrite lex_close_quote, lex_literal_end by exact Htail.
  cbn [conditionTokens fst snd]. now destruct (lex Between tail).
Qed.

Lemma lex_conjunction (cs : list Condition) : forall tail,
  cs <> [] ->
  Forall (fun c => isWord (fst c) = true) cs ->
  startsBlank tail = true ->
  lex Between (join " AND " (map (fun c => equality (fst c) (snd c)) cs) ++ tail)
  = option_map (app (conjunction cs)) (lex Between tail).
Proof.
  induction cs as [|[column value] cs IH]; intros tail Hcs Hwords Htail;
    [congruence|].
  inversion Hwords as [|? ? Hcolumn Hrest]; subst. cbn [fst] in Hcolumn.
  destruct cs as [|c cs].
  - cbn [map join conjunction fst snd]. now apply lex_equality.
  - change (join " AND " (map (fun c => equality (fst c) (snd c))
                              ((column, value) :: c :: cs)))
      with (equality column value
            ++ " AND " ++ join " AND " (map (fun c => equality (fst c) (snd c))
                                            (c :: cs))).
    rewrite !append_assoc.
    rewrite lex_equality by (exact Hcolumn || reflexivity).
    change (" AND " ++ join " AND " (map (fun c => equality (fst c) (snd c)) (c :: cs))
              ++ tail)
      with (String " " ("AND" ++ String " "
              (join " AND " (map (fun c => equality (fst c) (snd c)) (c :: cs))
                 ++ tail))).
    rewrite lex_blank, lex_word, lex_blank by reflexivity.
    rewrite IH by (exact Hrest || exact Htail || discriminate).
    change (conjunction ((column, value) :: c :: cs))
      with (conditionTokens (column, value) ++ Word "AND" :: conjunction (c :: cs))%list.
    destruct (lex Between tail) as [ts|]; [|reflexivity].
    cbn [option_map]. now rewrite <- app_assoc.
Qed.

(** The clause, followed by a blank or by the end, is read as WHERE and
    its conditions. *)
Lemma lex_clause (fs : FilterState) (tail : string) :
  Forall (fun c => isWord (fst c) = true) (activeFilters fs) ->
  startsBlank tail = true ->
  lex Between (getWhereClause fs ++ tail)
  = option_map (app (clauseTokens (activeFilters fs))) (lex Between tail).
Proof.
  intros Hwords Htail. unfold getWhereClause. rewrite conditions_activeFilters.
  destruct (activeFilters fs) as [|c cs] eqn:Hactive.
  - cbn. now rewrite option_map_app_nil.
  - remember (join " AND " (map (fun c => equality (fst c) (snd c)) (c :: cs)))
      as text eqn:Htext.
    cbn [map List.length Nat.ltb Nat.leb].
    change (("WHERE " ++ text) ++ tail) with ("WHERE" ++ String " " (text ++ tail)).
    rewrite lex_word, lex_blank by reflexivity. subst text.
    rewrite lex_conjunction by (exact Hwords || exact Htail || discriminate).
    cbn [clauseTokens]. now destruct (lex Between tail).
Qed.

Lemma advance_app (ts ts' : list Token) : forall e,
  advance e (ts ++ ts')
  = match advance e ts with
    | Some e' => advance e' ts'
    | None => None
    end.
Proof.
  induction ts as [|t ts IH]; intros e; [reflexivity|].
  cbn [app advance]. now destruct (next e t).
Qed.

Lemma advance_conjunction (inGroup : bool) (cs : list Condition) :
  cs <> [] ->
  Forall (fun c => isReserved (fst c) = false) cs ->
  advance (ExpCondition inGroup) (conjunction cs) = Some (ExpConnective inGroup).
Proof.
  induction cs as [|[column value] cs IH]; intros Hcs Hnames; [congruence|].
  inversion Hnames as [|? ? Hcolumn Hrest]; subst. cbn [fst] in Hcolumn.
  destruct cs as [|c cs].
  - destruct inGroup;
      cbn [conjunction conditionTokens fst snd advance next]; now rewrite Hcolumn.
  - change (conjunction ((column, value) :: c :: cs))
      with (conditionTokens (column, value) ++ Word "AND" :: conjunction (c :: cs))%list.
    rewrite advance_app.
    assert (Hfirst : advance (ExpCondition inGroup) (conditionTokens (column, value))
                     = Some (ExpConnective inGroup)).
    { destruct inGroup; cbn [conditionTokens fst snd advance next];
        now rewrite Hcolumn. }
    rewrite Hfirst. cbn [advance].
    replace (next (ExpConnective inGroup) (Word "AND"))
      with (Some (ExpCondition inGroup)) by now destruct inGroup.
    apply IH; [discriminate|exact Hrest].
Qed.

Lemma advance_clause (cs : list Condition) :
  cs <> [] ->
  Forall (fun c => isReserved (fst c) = false) cs ->
  advance ExpWhere (clauseTokens cs) = Some (ExpConnective false).
Proof.
  intros Hcs Hnames. destruct cs as [|c cs]; [congruence|].
  cbn [clauseTokens advance next]. change (keyword "WHERE" "WHERE") with true.
  cbv iota. now apply advance_conjunction.
Qed.

(** Every configured column is a column name. *)
Lemma allowlisted_column_name (column : string) :
  allowlisted column = true -> isColumnName column = true.
Proof.
  unfold allowlisted. rewrite existsb_exists. intros (known & Hin & Heq).
  apply String.eqb_eq in Heq. subst known.
  assert (Hall : forallb isColumnName allowlist = true) by (vm_compute; reflexivity).
  rewrite forallb_forall in Hall. now apply Hall.
Qed.

(** With column names in the chart filters, every active filter has
    one. *)
Lemma activeFilters_column_names (fs : FilterState) :
  Forall (fun c => isColumnName (fst c) = true) (chartFilters fs) ->
  Forall (fun c => isColumnName (fst c) = true) (activeFilters fs).
Proof.
  intros Hchart. unfold activeFilters. apply Forall_app. split; [|exact Hchart].
  apply Forall_forall. intros c Hin. apply allowlisted_column_name.
  apply (sidebar_columns_allowlisted fs).
  unfold activeFilters. cbn [chartFilters selectValue]. now rewrite app_nil_r.
Qed.

Lemma column_names_words (cs : list Condition) :
  Forall (fun c => isColumnName (fst c) = true) cs ->
  Forall (fun c => isWord (fst c) = true) cs
  /\ Forall (fun c => isReserved (fst c) = false) cs.
Proof.
  intros Hcs. split; eapply Forall_impl; try exact Hcs; intros c Hc;
    unfold isColumnName in Hc; apply andb_true_iff in Hc as [Hword Hfree];
    [exact Hword|now apply negb_true_iff in Hfree].
Qed.

Lemma lex_blanks (w tail : string) :
  allBlank w = true -> lex Between (w ++ tail) = lex Between tail.
Proof.
  induction w as [|a w IH]; [reflexivity|]. cbn [allBlank append].
  intros Hw. apply andb_true_iff in Hw as [Ha Hw].
  rewrite lex_blank by exact Ha. now apply IH.
Qed.

(** [column ILIKE '%term%'] is read as the column, ILIKE and the term
    between two percent signs. *)
Lemma lex_pattern (column term tail : string) :
  isWord column = true -> startsBlank tail = true ->
  lex Between (column ++ " ILIKE '%" ++ escapeQuotes term ++ "%'" ++ tail)
  = option_map (app (patternTokens term column)) (lex Between tail).
Proof.
  intros Hcolumn Htail.
  rewrite lex_word by (exact Hcolumn || reflexivity).
  change (" ILIKE '%" ++ escapeQuotes term ++ "%'" ++ tail)
    with (String " " ("ILIKE" ++ String " " (String "'" (String "%"
            (escapeQuotes term ++ String "%" (String "'" tail)))))).
  rewrite lex_blank, lex_word, lex_blank, lex_quote, lex_percent by reflexivity.
  rewrite lex_literal_body, lex_percent, lex_close_quote.
  rewrite lex_literal_end by exact Htail.
  cbn [append patternTokens]. now destruct (lex Between tail).
Qed.

(** The search condition is read as its five patterns, OR between them,
    in parentheses. *)
Lemma lex_searchCondition (term : string) :
  tokens (searchCondition (escapeQuotes term)) = Some (searchTokens term).
Proof.
  set (nl := String "010"%char "                ").
  set (pattern := fun column tail =>
                    column ++ " ILIKE '%" ++ escapeQuotes term ++ "%'" ++ tail).
  assert (Hshape :
    searchCondition (escapeQuotes term)
    = String "(" (nl ++ pattern "education_topic" (String " " (nl ++ "OR" ++ String " "
        (pattern "industry_wish" (nl ++ "OR" ++ String " "
        (pattern "role" (nl ++ "OR" ++ String " "
        (pattern "industry" (nl ++ "OR" ++ String " "
        (pattern "region" (String "010"%char "            " ++ ")"))))))))))))
    by reflexivity.
  unfold tokens. rewrite Hshape. unfold pattern.
  rewrite lex_open.
  rewrite (lex_blanks nl), lex_pattern by reflexivity.
  rewrite lex_blank by reflexivity.
  do 4 (rewrite (lex_blanks nl), lex_word, lex_blank, lex_pattern by reflexivity).
  reflexivity.
Qed.

Lemma advance_searchTokens (term : string) :
  advance (ExpCondition false) (searchTokens term) = Some (ExpConnective false).
Proof. reflexivity. Qed.



(** C3, at the failing input.  A chart filter restored from the page
    address with the key [--] gives a clause whose condition the engine
    reads as a comment: WHERE is left without a condition, and a caller's
    condition, valid by itself, comes after WHERE AND. *)
Theorem restored_clause_refused :
  let filters := [("--", "x")] in
  let fs := {| selectValue := fun _ => "";
               chartFilters := restoreChartFilters [] filters |} in
  let extra := "role IS NOT NULL" in
  getWhereClause fs = "WHERE -- = 'x'"
  /\ tokens (getWhereClause fs) = Some [Word "WHERE"]
  /\ validWhere (getWhereClause fs) = false
  /\ validConditions extra = true
  /\ tokens (extendWhere (getWhereClause fs) extra)
     = Some [Word "WHERE"; Word "AND"; Word "role"; Word "IS"; Word "NOT";
             Word "NULL"]
  /\ validWhere (extendWhere (getWhereClause fs) extra) = false
  /\ allowlisted "--" = false.
Proof. repeat split; vm_compute; reflexivity. Qed.

(** X13. Without a search term the responses queries run under the filter
    clause itself.  The search condition is read by the engine as five
    patterns in parentheses, OR between them, each the term between two
    percent signs, quotes included.  With a term and chart filters on
    column names, the clause of the responses queries is read as the active
    filters and the search condition, after AND or after WHERE when no
    filter is active, and it is a WHERE clause. *)
Theorem responsesWhere_read (fs : FilterState) (term : string) :
  Forall (fun c => isColumnName (fst c) = true) (chartFilters fs) ->
  term <> "" ->
  responsesWhere fs "" = getWhereClause fs
  /\ tokens (searchCondition (escapeQuotes term)) = Some (searchTokens term)
  /\ tokens (responsesWhere fs term)
     = Some (if anyFilterActive fs
             then clauseTokens (activeFilters fs) ++ Word "AND" :: searchTokens term
             else Word "WHERE" :: searchTokens term)%list
  /\ validWhere (responsesWhere fs term) = true.
Proof.
  intros Hchart Hterm.
  pose proof (activeFilters_column_names fs Hchart) as Hnames.
  destruct (column_names_words _ Hnames) as [Hwords Hfree].
  pose proof (lex_searchCondition term) as Hsearch. unfold tokens in Hsearch.
  assert (Hread :
    tokens (responsesWhere fs term)
    = Some (if anyFilterActive fs
            then clauseTokens (activeFilters fs) ++ Word "AND" :: searchTokens term
            else Word "WHERE" :: searchTokens term)%list).
  { unfold responsesWhere, truthy at 1.
    apply String.eqb_neq in Hterm. rewrite Hterm. cbn [negb]. cbv zeta.
    destruct (anyFilterActive fs) eqn:Hactive.
    - assert (Htruthy : truthy (getWhereClause fs) = true).
      { unfold truthy. apply negb_true_iff, String.eqb_neq.
        rewrite getWhereClause_form. intros Hnone.
        destruct (activeFilters fs) as [|c cs] eqn:Hcs; [|discriminate].
        apply activeFilters_none in Hcs. congruence. }
      rewrite Htruthy. unfold tokens.
      rewrite lex_clause by (exact Hwords || reflexivity).
      change (" AND " ++ searchCondition (escapeQuotes term))
        with (String " " ("AND" ++ String " " (searchCondition (escapeQuotes term)))).
      rewrite lex_blank, lex_word, lex_blank by reflexivity.
      rewrite Hsearch. reflexivity.
    - assert (Hnone : getWhereClause fs = "").
      { rewrite getWhereClause_form. apply activeFilters_none in Hactive.
        now rewrite Hactive. }
      rewrite Hnone. cbn [truthy String.eqb negb].
      change ("WHERE " ++ searchCondition (escapeQuotes term))
        with ("WHERE" ++ String " " (searchCondition (escapeQuotes term))).
      unfold tokens. rewrite lex_word, lex_blank by reflexivity.
      rewrite Hsearch. reflexivity. }
  split; [reflexivity|]. split; [apply lex_searchCondition|]. split; [exact Hread|].
  unfold validWhere, clauseOk. rewrite Hread.
  destruct (anyFilterActive fs) eqn:Hactive.
  - rewrite advance_app, advance_clause; [| |exact Hfree].
    + cbn [advance next]. change (keyword "AND" "AND") with true. cbn [orb].
      now rewrite advance_searchTokens.
    + intros Hnone. apply activeFilters_none in Hnone. congruence.
  - cbn [advance next]. change (keyword "WHERE" "WHERE") with true. cbv iota.
    now rewrite advance_searchTokens.
Qed.

Lemma responsesWhere_read_witness :
  let fs := {| selectValue := fun _ => ""; chartFilters := [("role", "Analyst")] |} in
  tokens (responsesWhere fs "d'Arc")
  = Some ([Word "WHERE"; Word "role"; Equals; Literal "Analyst"; Word "AND"]
          ++ searchTokens "d'Arc")%list
  /\ In (Literal "%d'Arc%") (searchTokens "d'Arc")
  /\ validWhere (responsesWhere fs "d'Arc") = true.
Proof.
  intros fs.
  destruct (responsesWhere_read fs "d'Arc") as (_ & _ & Hread & Hvalid).
  - repeat constructor.
  - discriminate.
  - split; [exact Hread|]. split; [|exact Hvalid].
    cbn. do 3 right. left. reflexivity.
Defined.

End ClauseFacts.

(** ** Outcomes of a crosstab call, sorting and display *)

Section DisplayFacts.
Import JsString Filters Engine Crosstab EventLoop Display.

(** X14. Under any engine, a call of [updateCrosstab] either leaves the
    stored matrix and the sort state as they were, showing the placeholder
    with no query sent, "no data" or an error after the crosstab query
    alone, or an error after all three queries; or all three answers are
    rows, the crosstab one non-empty, and the matrix assembled from them is
    stored and shown under the reset sort. *)
Theorem updateCrosstab_outcome (engine : Engine.t) (p : Page) :
  let i := invocationOf p in
  let p' := fst (updateCrosstab engine p) in
  let queries := snd (updateCrosstab engine p) in
  let three := [QDetail (detailQuery i); QTotals (rowTotalsQuery i);
                QTotals (colTotalsQuery i)] in
  (crosstabData p' = crosstabData p
   /\ crosstabSortCol p' = crosstabSortCol p
   /\ crosstabSortDir p' = crosstabSortDir p
   /\ ((results p' = SelectDifferentDimensions /\ queries = []
        /\ rowsSelect p = colsSelect p)
       \/ (results p' = NoDataMatches /\ queries = [QDetail (detailQuery i)]
           /\ runDetail engine (detailQuery i) = Rows [])
       \/ (exists message, results p' = ErrorText message
             /\ ((queries = [QDetail (detailQuery i)]
                  /\ runDetail engine (detailQuery i) = Failure message)
                 \/ (queries = three
                     /\ (runTotals engine (rowTotalsQuery i) = Failure message
                         \/ runTotals engine (colTotalsQuery i) = Failure message))))))
  \/ (exists data rowTotalsResult colTotalsResult,
        data <> []
        /\ runDetail engine (detailQuery i) = Rows data
        /\ runTotals engine (rowTotalsQuery i) = Rows rowTotalsResult
        /\ runTotals engine (colTotalsQuery i) = Rows colTotalsResult
        /\ queries = three
        /\ p' = renderCrosstabTable
                  (withSort (Some "_total") Desc
                     (withData (assemble i data rowTotalsResult colTotalsResult) p))).
Proof.
  cbv zeta. unfold updateCrosstab, start.
  destruct (String.eqb_spec (rowsSelect p) (colsSelect p)) as [Hsame|Hdiff].
  - left. cbn. repeat split. left. now repeat split.
  - cbn [onDetail].
    destruct (runDetail engine (detailQuery (invocationOf p))) as [data|message]
      eqn:Hdetail.
    + cbn [onDetail]. destruct data as [|d data].
      * left. cbn. repeat split. right. left. now repeat split.
      * cbn [List.length Nat.eqb].
        destruct (runTotals engine (rowTotalsQuery (invocationOf p)))
          as [rowTotalsResult|message] eqn:Hrow.
        -- destruct (runTotals engine (colTotalsQuery (invocationOf p)))
             as [colTotalsResult|message] eqn:Hcol.
           ++ right. exists (d :: data), rowTotalsResult, colTotalsResult.
              cbn [fst snd onTotals]. repeat split. discriminate.
           ++ left. cbn. repeat split. right. right. exists message.
              split; [reflexivity|]. right. split; [reflexivity|]. now right.
        -- left. cbn. repeat split. right. right. exists message.
           split; [reflexivity|]. right. split; [reflexivity|]. now left.
    + left. cbn. repeat split. right. right. exists message.
      split; [reflexivity|]. left. now split.
Qed.

Lemma Sorted_weaken {X : Type} (R R' : X -> X -> Prop) (l : list X) :
  (forall a b, R a b -> R' a b) -> Sorted R l -> Sorted R' l.
Proof.
  intros Himpl Hs. induction Hs as [|x l Hs IH Hhd]; constructor; [exact IH|].
  destruct Hhd; constructor. now apply Himpl.
Qed.

Lemma rowOrder_total (dir : SortDir) (a b : RowData) :
  rowOrder (Some "_total") dir a b
  = match dir with
    | Desc => Z.compare (rd_total b) (rd_total a)
    | Asc => Z.compare (rd_total a) (rd_total b)
    end.
Proof. destruct dir; unfold rowOrder, sortValue; cbn; apply Qcompare_inject_Z. Qed.

Lemma body_sorted (cd : CrosstabData) (dir : SortDir) :
  Sorted (totalsInOrder dir) (tbl_body (renderTable cd (Some "_total") dir)).
Proof.
  unfold renderTable. cbn [tbl_body].
  apply (Sorted_weaken (inOrder (rowOrder (Some "_total") dir))).
  - intros a b. unfold inOrder, totalsInOrder. rewrite rowOrder_total.
    destruct dir; intros H; now apply Z.compare_le_iff.
  - apply sortBy_sorted. intros a b. rewrite !rowOrder_total.
    destruct dir; rewrite !Z.compare_gt_iff; lia.
Qed.

(** X15. Whatever the sort column and direction, the body of the table
    holds each row of the matrix once, none lost and none added; sorted by
    the total, the rows are in the order the direction asks for. *)
Theorem table_rows_sorted (cd : CrosstabData) (sortCol : option string)
    (dir : SortDir) :
  Permutation (map rd_row (tbl_body (renderTable cd sortCol dir))) (rows cd)
  /\ List.length (tbl_body (renderTable cd sortCol dir)) = List.length (rows cd)
  /\ Sorted (totalsInOrder dir) (tbl_body (renderTable cd (Some "_total") dir)).
Proof.
  unfold renderTable. cbn [tbl_body].
  assert (Hperm : forall col,
            Permutation (sortBy (rowOrder col dir) (map (rowDataOf cd) (rows cd)))
                        (map (rowDataOf cd) (rows cd)))
    by (intros col; apply sortBy_perm).
  split; [|split].
  - rewrite (Permutation_map rd_row (Hperm sortCol)), map_map.
    cbn [rd_row rowDataOf]. now rewrite map_id.
  - rewrite (Permutation_length (Hperm sortCol)). apply length_map.
  - apply body_sorted.
Qed.

(** X16. Two clicks on the header that is the active sort key bring back
    the direction, and the page is what a plain re-render of the stored
    matrix gives. *)
Theorem double_click_restores (col : string) (p : Page) :
  crosstabSortCol p = Some col ->
  sortClicked col (sortClicked col p) = renderCrosstabTable p.
Proof.
  intros Hcol. destruct p as [r c m fs data sortCol dir res].
  cbn [crosstabSortCol] in Hcol. subst sortCol.
  destruct data as [cd|], dir;
    unfold sortClicked, renderCrosstabTable;
    repeat (cbn [withSort crosstabData withResults rowsSelect colsSelect
                 metricSelect filterState crosstabSortCol crosstabSortDir results];
            rewrite ?String.eqb_refl);
    reflexivity.
Qed.

Lemma double_click_restores_witness :
  let p := fst (updateCrosstab (reference Sample.complete) Sample.roleByRegion) in
  sortClicked "_total" (sortClicked "_total" p) = p.
Proof.
  intros p. rewrite (double_click_restores "_total" p) by reflexivity.
  reflexivity.
Defined.

Lemma consistent_render (p : Page) (col : option string) (dir : SortDir) :
  Consistent p -> col <> None ->
  Consistent (renderCrosstabTable (withSort col dir p)).
Proof.
  intros [Hshown Hcol] Hsome. unfold Consistent, renderCrosstabTable.
  cbn [withSort crosstabData].
  destruct (crosstabData p) as [cd|] eqn:Hcd.
  - cbn [withResults results crosstabData crosstabSortCol crosstabSortDir withSort].
    split; [|intros _; exact Hsome]. exists cd. now rewrite Hcd.
  - cbn [withSort results crosstabData crosstabSortCol]. rewrite Hcd.
    split; [|congruence].
    destruct (results p); try exact I.
    destruct Hshown as (cd & Hsome' & _). congruence.
Qed.

Lemma consistent_message (p : Page) (c : Container) :
  Consistent p -> (forall table, c <> Rendered table) ->
  Consistent (withResults c p).
Proof.
  intros [_ Hcol] Hc. unfold Consistent. cbn [withResults results crosstabData
    crosstabSortCol]. split; [|exact Hcol].
  destruct c; try exact I. exfalso. now apply (Hc table).
Qed.

Lemma consistent_selects (p : Page) rowsValue colsValue metricValue fs :
  Consistent p -> Consistent (withSelects rowsValue colsValue metricValue fs p).
Proof. intros H. exact H. Qed.

Lemma consistent_call (p : Page) (w : World) :
  Consistent p -> Consistent (page (call p w)).
Proof.
  intros Hp. unfold call, start.
  destruct (rowsSelect p =? colsSelect p); cbn [page]; [|exact Hp].
  apply consistent_message; [exact Hp | discriminate].
Qed.

Lemma consistent_step (w : World) (e : Event) :
  Consistent (page w) -> Consistent (page (step w e)).
Proof.
  intros Hw.
  destruct e as [v|v|v|fs| |id answer|id rowAnswer colAnswer|col]; cbn [step].
  - now apply consistent_call, consistent_selects.
  - now apply consistent_call, consistent_selects.
  - now apply consistent_call, consistent_selects.
  - cbn [page]. now apply consistent_selects.
  - now apply consistent_call.
  - destruct (pending id (inflight w)) as [[|i|i data]|]; try exact Hw.
    destruct answer as [data|message]; cbn [onDetail].
    + destruct (Nat.eqb (List.length data) 0); cbn [page]; [|exact Hw].
      apply consistent_message; [exact Hw | discriminate].
    + cbn [page]. apply consistent_message; [exact Hw | discriminate].
  - destruct (pending id (inflight w)) as [[|i|i data]|]; try exact Hw.
    cbn [page].
    destruct rowAnswer as [rowTotalsResult|message];
      [destruct colAnswer as [colTotalsResult|message]|]; cbn [onTotals];
      try (apply consistent_message; [exact Hw | discriminate]).
    unfold Consistent, renderCrosstabTable.
    cbn [withSort withData crosstabData withResults results crosstabSortCol
         crosstabSortDir].
    split; [eauto | discriminate].
  - destruct (results (page w)) eqn:Hres; try exact Hw. cbn [page].
    unfold sortClicked.
    destruct (crosstabSortCol (page w)) as [current|] eqn:Hcur;
      [destruct (current =? col)|];
      apply consistent_render; try exact Hw; discriminate.
Qed.

(** X17. Through any sequence of dimension changes, filter changes, calls,
    answers and header clicks, a table shown in the container is always the
    stored matrix rendered under the stored sort column and direction, and
    a stored matrix always has a sort column. *)
Theorem display_consistent (w : World) (events : list Event) :
  Consistent (page w) -> Consistent (page (run w events)).
Proof.
  revert w. induction events as [|e events IH]; intros w Hw; [exact Hw|].
  cbn [run fold_left]. apply IH. now apply consistent_step.
Qed.

Lemma display_consistent_witness :
  Consistent (page (run Sample.idle
                        (Sample.overtaken ++ [HeaderClicked "Asia"; Called])%list)).
Proof.
  apply display_consistent. split; [exact I | intros H; now contradiction H].
Defined.

End DisplayFacts.

(** ** The grand total *)

Section GrandTotalFacts.
Import JsString Filters Engine Crosstab.

Lemma sumZ_permutation (l l' : list Z) : Permutation l l' -> sumZ l = sumZ l'.
Proof. induction 1; unfold sumZ in *; cbn [fold_right] in *; lia. Qed.

Lemma count_over_keys (l ks : list string) :
  NoDup ks -> incl l ks ->
  list_sum (map (count_occ string_dec l) ks) = List.length l.
Proof.
  intros Hnd. induction l as [|x l IH]; intros Hincl.
  - now apply list_sum_zero.
  - rewrite (map_ext _ _ (fun k => count_occ_string_cons x k l)).
    rewrite (list_sum_plus (fun k => if x =? k then 1 else 0)
                           (count_occ string_dec l)).
    rewrite IH by (intros y Hy; apply Hincl; now right).
    rewrite (indicator_sum ks x (fun k => x =? k) Hnd).
    + reflexivity.
    + apply Hincl. now left.
    + intros k. rewrite String.eqb_eq. split; congruence.
Qed.

Lemma string_split_nonempty sep s : string_split sep s <> [].
Proof.
  induction s as [|a s IH]; cbn [string_split]; [discriminate|].
  destruct (Ascii.eqb a sep); [discriminate|].
  now destruct (string_split sep s).
Qed.

(** The total of the marginal answer is the number of groups the records
    fall in, counted with repetition. *)
Lemma totals_sum db q :
  sumZ (map total (referenceTotals db q)) = Z.of_nat (List.length (totalsKeys db q)).
Proof.
  unfold referenceTotals. cbv zeta.
  rewrite (sumZ_permutation _ _ (Permutation_map total (sortBy_perm byTotalDesc _))).
  rewrite map_map. cbn [total].
  rewrite <- (map_map (count_occ string_dec (totalsKeys db q)) Z.of_nat).
  rewrite sumZ_of_nat. f_equal. apply count_over_keys.
  - apply NoDup_nodup.
  - intros k Hk. now apply nodup_In.
Qed.

(** X18. The grand total of an assembled matrix is at least the number of
    records that pass the filters and have a value for the row dimension;
    for a single-valued row dimension it is exactly that number. *)
Theorem grandTotal_counts_records (db : Dataset) (i : Invocation) :
  let withRow :=
    filter (fun rec => match rec (i_rowCol i) with Some _ => true | None => false end)
           (filter (selected (i_where i)) db) in
  (Z.of_nat (List.length withRow) <= grandTotal (assembleOver db i))%Z
  /\ (isMultiSelect (i_rowCol i) = false ->
      grandTotal (assembleOver db i) = Z.of_nat (List.length withRow)).
Proof.
  intros withRow.
  assert (Hgrand : grandTotal (assembleOver db i)
                   = Z.of_nat (List.length (totalsKeys db (rowTotalsQuery i)))).
  { rewrite <- totals_sum.
    change (grandTotal (assembleOver db i))
      with (fold_left Z.add
              (Assoc.values
                 (Assoc.fromEntries
                    (map (fun t => (val t, total t))
                         (referenceTotals db (rowTotalsQuery i)))))
              0%Z).
    rewrite totals_map, fold_left_add_sumZ. unfold Assoc.values.
    now rewrite map_map. }
  rewrite Hgrand. unfold withRow, totalsKeys.
  change (t_where (rowTotalsQuery i)) with (i_where i).
  generalize (filter (selected (i_where i)) db) as chosen.
  intros chosen. split.
  - apply Nat2Z.inj_le. induction chosen as [|rec chosen IH]; [cbn; lia|].
    cbn [filter flat_map]. rewrite length_app. unfold totalsTokens at 1.
    change (t_column (rowTotalsQuery i)) with (i_rowCol i).
    destruct (rec (i_rowCol i)) as [v|]; cbn [List.length]; [|lia].
    assert (1 <= List.length
                   (if t_isMulti (rowTotalsQuery i) then unnestTrim v else [v])).
    { destruct (t_isMulti (rowTotalsQuery i)); [|cbn; lia].
      unfold unnestTrim. rewrite length_map.
      pose proof (string_split_nonempty "," v).
      destruct (string_split "," v); [congruence | cbn; lia]. }
    lia.
  - intros Hsingle. f_equal.
    induction chosen as [|rec chosen IH]; [reflexivity|].
    cbn [filter flat_map]. rewrite length_app, IH. unfold totalsTokens at 1.
    change (t_column (rowTotalsQuery i)) with (i_rowCol i).
    change (t_isMulti (rowTotalsQuery i)) with (isMultiSelect (i_rowCol i)).
    rewrite Hsingle. now destruct (rec (i_rowCol i)).
Qed.

Lemma grandTotal_counts_records_witness :
  grandTotal (assembleOver Sample.partial (invocationOf Sample.roleByRegion)) = 2%Z.
Proof.
  destruct (grandTotal_counts_records Sample.partial (invocationOf Sample.roleByRegion))
    as [_ ->]; reflexivity.
Defined.

End GrandTotalFacts.

(** ** Reversing the direction *)

Section ReverseFacts.
Import Engine Crosstab Display.

Section StrictOrder.
Context {X : Type} (key : X -> Z).

Lemma strict_of_distinct (l : list X) :
  StronglySorted (fun a b => (key b <= key a)%Z) l ->
  NoDup (map key l) ->
  StronglySorted (above key) l.
Proof.
  intros Hs Hnd. induction Hs as [|x l Hs IH Hall]; [constructor|].
  cbn [map] in Hnd. inversion Hnd as [|? ? Hx Hnd']; subst.
  constructor; [now apply IH|].
  rewrite Forall_forall in *. intros y Hy. unfold above.
  assert (key y <> key x) by (intros Heq; apply Hx; rewrite <- Heq; now apply in_map).
  specialize (Hall y Hy). cbn in Hall. lia.
Qed.

Lemma strict_of_distinct_up (l : list X) :
  StronglySorted (fun a b => (key a <= key b)%Z) l ->
  NoDup (map key l) ->
  StronglySorted (below key) l.
Proof.
  intros Hs Hnd. induction Hs as [|x l Hs IH Hall]; [constructor|].
  cbn [map] in Hnd. inversion Hnd as [|? ? Hx Hnd']; subst.
  constructor; [now apply IH|].
  rewrite Forall_forall in *. intros y Hy. unfold below.
  assert (key y <> key x) by (intros Heq; apply Hx; rewrite <- Heq; now apply in_map).
  specialize (Hall y Hy). cbn in Hall. lia.
Qed.

Lemma sorted_snoc (l : list X) (x : X) :
  StronglySorted (above key) l -> Forall (fun a => above key a x) l ->
  StronglySorted (above key) (l ++ [x]).
Proof.
  intros Hs Hall. induction Hs as [|y l Hs IH Hy]; cbn [app].
  - repeat constructor.
  - inversion Hall as [|? ? Hyx Hall']; subst.
    constructor; [now apply IH|].
    apply Forall_app. split; [exact Hy | now constructor].
Qed.

Lemma rev_below (l : list X) :
  StronglySorted (below key) l -> StronglySorted (above key) (rev l).
Proof.
  induction 1 as [|x l Hs IH Hall]; cbn [rev]; [constructor|].
  apply sorted_snoc; [exact IH|].
  rewrite Forall_forall in *. intros y Hy. apply in_rev in Hy.
  exact (Hall y Hy).
Qed.

(** Two lists with the same elements, both strictly descending, are the
    same list. *)
Lemma descending_unique (l1 l2 : list X) :
  Permutation l1 l2 -> StronglySorted (above key) l1 -> StronglySorted (above key) l2 ->
  l1 = l2.
Proof.
  revert l2. induction l1 as [|x t1 IH]; intros l2 Hperm Hs1 Hs2.
  - now apply Permutation_nil in Hperm.
  - destruct l2 as [|y t2];
      [apply Permutation_sym, Permutation_nil in Hperm; discriminate|].
    inversion Hs1 as [|? ? Hs1' Hall1]; subst.
    inversion Hs2 as [|? ? Hs2' Hall2]; subst.
    rewrite Forall_forall in Hall1, Hall2.
    assert (Hxy : x = y).
    { assert (Hx : In x (y :: t2))
        by (apply (Permutation_in _ Hperm); now left).
      assert (Hy : In y (x :: t1))
        by (apply (Permutation_in _ (Permutation_sym Hperm)); now left).
      destruct Hx as [Hx|Hx]; [congruence|].
      destruct Hy as [Hy|Hy]; [congruence|].
      specialize (Hall1 y Hy). specialize (Hall2 x Hx).
      unfold above in *. lia. }
    subst y. f_equal. apply IH; try assumption.
    now apply Permutation_cons_inv in Hperm.
Qed.
End StrictOrder.

(** X19. When no two rows have the same total, sorting by the total in
    ascending direction gives exactly the reverse of the descending
    order. *)
Theorem toggle_reverses (cd : CrosstabData) :
  NoDup (map (totalOf (rowTotals cd)) (rows cd)) ->
  tbl_body (renderTable cd (Some "_total") Asc)
  = rev (tbl_body (renderTable cd (Some "_total") Desc)).
Proof.
  intros Hdistinct.
  set (l := map (rowDataOf cd) (rows cd)).
  assert (Hkeys : NoDup (map rd_total l)).
  { unfold l. rewrite map_map. exact Hdistinct. }
  pose proof (body_sorted cd Asc) as Hasc.
  pose proof (body_sorted cd Desc) as Hdesc.
  unfold renderTable in *. cbn [tbl_body] in *. fold l in Hasc, Hdesc |- *.
  pose proof (sortBy_perm (rowOrder (Some "_total") Asc) l) as Pasc.
  pose proof (sortBy_perm (rowOrder (Some "_total") Desc) l) as Pdesc.
  rewrite <- (rev_involutive (sortBy (rowOrder (Some "_total") Asc) l)).
  f_equal.
  apply (descending_unique rd_total).
  - rewrite <- Permutation_rev. now rewrite Pasc, Pdesc.
  - apply rev_below. apply strict_of_distinct_up.
    + apply Sorted_StronglySorted; [|exact Hasc].
      intros a b c. unfold totalsInOrder. lia.
    + eapply Permutation_NoDup; [|exact Hkeys].
      apply Permutation_map. now symmetry.
  - apply (strict_of_distinct rd_total).
    + apply Sorted_StronglySorted; [|exact Hdesc].
      intros a b c. unfold totalsInOrder. lia.
    + eapply Permutation_NoDup; [|exact Hkeys].
      apply Permutation_map. now symmetry.
Qed.

Lemma toggle_reverses_witness :
  let cd := assembleOver Sample.complete (invocationOf Sample.roleByRegion) in
  map rd_row (tbl_body (renderTable cd (Some "_total") Asc)) = ["Analyst"; "Engineer"]
  /\ map rd_row (tbl_body (renderTable cd (Some "_total") Desc)) = ["Engineer"; "Analyst"].
Proof.
  intros cd. rewrite (toggle_reverses cd).
  - split; vm_compute; reflexivity.
  - vm_compute. repeat constructor; cbn; intuition discriminate.
Defined.

End ReverseFacts.

(** ** Cells against totals *)

Section WithinTotalsFacts.
Import JsString Filters Engine Crosstab.

Lemma pairs_fst_le (q : DetailQuery) (qt : TotalsQuery) (recs : list Row) (r : string) :
  d_rowIsMulti q = false -> d_colIsMulti q = false ->
  t_column qt = d_rowCol q -> t_isMulti qt = false ->
  count_occ string_dec (map fst (flat_map (detailPairs q) recs)) r
  <= count_occ string_dec (flat_map (totalsTokens qt) recs) r.
Proof.
  intros Hrow Hcol Hcolumn Hsingle.
  induction recs as [|rec recs IH]; [reflexivity|].
  cbn [flat_map]. rewrite map_app, !count_occ_app.
  rewrite (detailPairs_single q Hrow Hcol). unfold totalsTokens at 1.
  rewrite Hcolumn, Hsingle.
  destruct (rec (d_rowCol q)) as [rv|], (rec (d_colCol q)) as [cv|];
    cbn [map fst count_occ]; try lia;
    destruct (string_dec rv r); lia.
Qed.

Lemma pairs_snd_le (q : DetailQuery) (qt : TotalsQuery) (recs : list Row) (c : string) :
  d_rowIsMulti q = false -> d_colIsMulti q = false ->
  t_column qt = d_colCol q -> t_isMulti qt = false ->
  count_occ string_dec (map snd (flat_map (detailPairs q) recs)) c
  <= count_occ string_dec (flat_map (totalsTokens qt) recs) c.
Proof.
  intros Hrow Hcol Hcolumn Hsingle.
  induction recs as [|rec recs IH]; [reflexivity|].
  cbn [flat_map]. rewrite map_app, !count_occ_app.
  rewrite (detailPairs_single q Hrow Hcol). unfold totalsTokens at 1.
  rewrite Hcolumn, Hsingle.
  destruct (rec (d_rowCol q)) as [rv|], (rec (d_colCol q)) as [cv|];
    cbn [map snd count_occ]; try lia;
    destruct (string_dec cv c); lia.
Qed.

(** X20. For two single-valued dimensions whose row values do not hold
    the separator character, the cells of a row never add up to more than
    the row's total, nor the cells of a column to more than the column's
    total, whatever values the records lack. *)
Theorem cells_within_totals (db : Dataset) (i : Invocation) :
  let chosen := filter (selected (i_where i)) db in
  let cd := assembleOver db i in
  isMultiSelect (i_rowCol i) = false ->
  isMultiSelect (i_colCol i) = false ->
  (forall rec v, In rec chosen -> rec (i_rowCol i) = Some v -> occurs "|" v = false) ->
  (forall r, In r (rows cd) -> (rowSum cd r <= totalOf (rowTotals cd) r)%Z)
  /\ (forall c, In c (cols cd) -> (colSum cd c <= totalOf (colTotals cd) c)%Z).
Proof.
  intros chosen cd Hrow Hcol Hbar.
  set (q := detailQuery i). set (qr := rowTotalsQuery i).
  set (qc := colTotalsQuery i).
  assert (Hkeys : detailKeys db q = flat_map (detailPairs q) chosen) by reflexivity.
  assert (Hrkeys : totalsKeys db qr = flat_map (totalsTokens qr) chosen) by reflexivity.
  assert (Hckeys : totalsKeys db qc = flat_map (totalsTokens qc) chosen) by reflexivity.
  assert (Hrows : rows cd = map val (referenceTotals db qr)) by apply totals_keys.
  assert (Hcols : cols cd = map val (referenceTotals db qc)) by apply totals_keys.
  assert (Hrow_bar : forall r, In r (rows cd) -> occurs "|" r = false).
  { intros r Hr. rewrite Hrows in Hr. apply totals_key_in in Hr.
    rewrite Hrkeys in Hr. apply tokens_in in Hr as (rec & Hrec & Hv); [|exact Hrow].
    exact (Hbar rec r Hrec Hv). }
  assert (Hdata_bar : forall d, In d (referenceDetail db q) ->
                                occurs "|" (row_val d) = false).
  { intros d Hd. apply referenceDetail_in in Hd as [Hd _]. rewrite Hkeys in Hd.
    apply pairs_in in Hd as (rec & Hrec & Hv & _); [|exact Hrow|exact Hcol].
    exact (Hbar rec _ Hrec Hv). }
  split.
  - intros r Hr. unfold rowSum.
    change (matrix cd) with (fill (referenceDetail db q) []).
    change (rowTotals cd)
      with (Assoc.fromEntries (map (fun t => (val t, total t)) (referenceTotals db qr))).
    rewrite totalOf_reference.
    rewrite (map_ext _ (fun c => Z.of_nat (count_occ pair_dec (detailKeys db q) (r, c))))
      by (intros c; apply cellCount_reference; auto).
    rewrite <- (map_map (fun c => count_occ pair_dec (detailKeys db q) (r, c)) Z.of_nat).
    rewrite sumZ_of_nat. apply Nat2Z.inj_le.
    rewrite sum_count_fst.
    + rewrite Hkeys, Hrkeys. now apply pairs_fst_le.
    + rewrite Hcols. apply referenceTotals_distinct.
    + intros c Hc. rewrite Hcols. apply totals_key_in. rewrite Hckeys.
      rewrite Hkeys in Hc. revert c Hc. now apply pairs_snd_incl.
  - intros c Hc. unfold colSum.
    change (matrix cd) with (fill (referenceDetail db q) []).
    change (colTotals cd)
      with (Assoc.fromEntries (map (fun t => (val t, total t)) (referenceTotals db qc))).
    rewrite totalOf_reference.
    rewrite (map_ext_in _ (fun r => Z.of_nat (count_occ pair_dec (detailKeys db q) (r, c))))
      by (intros r Hr; apply cellCount_reference; auto).
    rewrite <- (map_map (fun r => count_occ pair_dec (detailKeys db q) (r, c)) Z.of_nat).
    rewrite sumZ_of_nat. apply Nat2Z.inj_le.
    rewrite sum_count_snd.
    + rewrite Hkeys, Hckeys. now apply pairs_snd_le.
    + rewrite Hrows. apply referenceTotals_distinct.
    + intros r Hr. rewrite Hrows. apply totals_key_in. rewrite Hrkeys.
      rewrite Hkeys in Hr. revert r Hr. now apply pairs_fst_incl.
Qed.

Lemma cells_within_totals_witness :
  let cd := assembleOver Sample.partial (invocationOf Sample.roleByRegion) in
  (rowSum cd "Analyst" <= totalOf (rowTotals cd) "Analyst")%Z.
Proof.
  intros cd.
  destruct (cells_within_totals Sample.partial (invocationOf Sample.roleByRegion))
    as [Hrows _].
  - reflexivity.
  - reflexivity.
  - simpl. intros rec v H.
    repeat (destruct H as [<-|H];
            [vm_compute; intros Hv; inversion Hv; reflexivity|]).
    contradiction.
  - apply Hrows. vm_compute. now left.
Defined.

End WithinTotalsFacts.

(** ** Instances *)

Lemma addChartFilter_other_witness :
  Assoc.get (Filters.addChartFilter [("region", "Asia")] "role" "Analyst") "region"
  = Some "Asia".
Proof.
  rewrite (addChartFilter_other [("region", "Asia")] "role" "Analyst" "region")
    by discriminate.
  reflexivity.
Defined.
